(** * GARI backend: lobby lifecycle, finalization and rating

    A shallow embedding of the request handlers of the ride-sharing backend
    (lobbies, chat, rides, map, account deletion, socket service) and of its
    middleware (authentication, validation) over an explicit model of the
    PostgreSQL tables declared in [src/config/database.js].

    Conventions of the embedding.
    - A table is the list of its rows in insertion order; a handler is a
      function from the database (and the request) to the new database and
      the response it sends.
    - UUIDs, locations and statuses are strings, as the code has them. A
      string is the sequence of its UTF-16 code units, each below 256 (text
      in Latin-1): a character is one code unit, which is what a length
      counts, and the white space is TAB to CR, the space and the no-break
      space U+00A0. Text beyond Latin-1 is outside the model.
    - Numbers are exact rationals [Q]. What a handler writes to a
      DECIMAL(p,2) column of rides, ride_participants or users is rounded
      to two decimals, half away from zero, and refused when it does not
      fit, as PostgreSQL does; an INTEGER column holds 32 bits. The double
      that JavaScript holds in between (a quotient, the parsed AVG) is
      taken for the rational it approximates: the two round to the same
      cents unless they lie within 1e-15 of a half cent without being one,
      which no mean of fewer than 10^12 ratings does. The price of a lobby
      is kept as it was sent. The coordinates of the map routes are the
      values of their doubles.
    - The values PostgreSQL generates ([gen_random_uuid()]) are inputs of the
      operation that inserts the row; timestamps are left out.
    - [req.user.id] is the identity established by [authenticateToken]
      (middleware/auth.js, modelled on its own below): handlers take it as
      an argument, and the foreign keys to [users] are not checked for it.
    - Of the constraints of the schema, the model has the primary keys of
      the rows it generates, UNIQUE(lobby_id, user_id), NOT NULL where a
      handler may pass null, and the length of VARCHAR(20) where a handler
      passes a string of its caller.
    - Requests are served one after the other. *)

From Stdlib Require Import List String Ascii Bool Arith ZArith QArith Lia.
Import ListNotations.

Local Open Scope string_scope.
Local Open Scope Z_scope.

(** ** Tables (src/config/database.js, createTables) *)

Definition uuid := string.

(** JavaScript numbers as the handlers use them: a rational or NaN. *)
Inductive js_number :=
| Num (q : Q)
| NaN.

(** ** Numeric columns *)

Definition is_some {A} (o : option A) : bool :=
  match o with
  | Some _ => true
  | None => false
  end.

(** The hundredths of [q], rounded half away from zero. *)
Definition cents (q : Q) : Z :=
  let n := Qnum q in
  let d := Z.pos (Qden q) in
  if 0 <=? n then (200 * n + d) / (2 * d)
  else - ((200 * - n + d) / (2 * d)).

(** [q] at scale 2. *)
Definition round2 (q : Q) : Q := cents q # 100.

(** What a DECIMAL(p,2) column stores for [q]: the value at scale 2, or
    nothing ("numeric field overflow") when it has more than [p] digits. *)
Definition decimal (p : Z) (q : Q) : option Q :=
  if Z.abs (cents q) <? 10 ^ p then Some (round2 q) else None.

(** A number or NaN at scale 2. *)
Definition scale2 (a : js_number) : js_number :=
  match a with
  | Num q => Num (round2 q)
  | NaN => NaN
  end.

(** What a DECIMAL(p,2) column stores for a number or NaN; the type holds
    NaN as well. *)
Definition decimal_number (p : Z) (a : js_number) : option js_number :=
  match a with
  | Num q => if is_some (decimal p q) then Some (scale2 a) else None
  | NaN => Some NaN
  end.

(** An INTEGER column holds 32 bits. *)
Definition int4 (z : Z) : bool :=
  (- 2147483648 <=? z) && (z <=? 2147483647).

Record user_row := {
  user_id : uuid;
  user_total_rides : Z;
  user_rating : js_number;
  user_is_active : bool
}.

Record lobby_row := {
  lobby_id : uuid;
  creator_id : uuid;
  from_location : string;
  to_location : string;
  from_coordinates : Q * Q;
  to_coordinates : Q * Q;
  departure_time : string;
  vehicle_type : string;
  available_seats : Z;
  price_per_seat : Q;
  description : string;
  lobby_status : string
}.

Record member_row := {
  member_lobby_id : uuid;
  member_user_id : uuid;
  pickup_location : string;
  member_status : string
}.

Record chat_row := {
  chat_id : uuid;
  chat_lobby_id : uuid;
  chat_user_id : uuid;
  chat_message : string;
  message_type : string
}.

Record ride_row := {
  ride_id : uuid;
  ride_lobby_id : uuid;
  driver_id : uuid;
  ride_from_location : string;
  ride_to_location : string;
  ride_departure_time : string;
  total_amount : Q;
  distance_km : option Q;
  duration_minutes : option Z;
  ride_status : string
}.

Record participant_row := {
  part_ride_id : uuid;
  part_user_id : uuid;
  amount_paid : js_number;
  part_pickup_location : string;
  dropoff_location : string;
  rating : option Z;
  review : option string
}.

Record DB := {
  users : list user_row;
  lobbies : list lobby_row;
  lobby_members : list member_row;
  chat_messages : list chat_row;
  rides : list ride_row;
  ride_participants : list participant_row
}.

Definition empty_db : DB :=
  {| users := []; lobbies := []; lobby_members := []; chat_messages := [];
     rides := []; ride_participants := [] |}.

Definition set_lobbies (st : DB) (ls : list lobby_row) : DB :=
  {| users := users st; lobbies := ls; lobby_members := lobby_members st;
     chat_messages := chat_messages st; rides := rides st;
     ride_participants := ride_participants st |}.

Definition set_lobby_members (st : DB) (ms : list member_row) : DB :=
  {| users := users st; lobbies := lobbies st; lobby_members := ms;
     chat_messages := chat_messages st; rides := rides st;
     ride_participants := ride_participants st |}.

Definition set_users (st : DB) (us : list user_row) : DB :=
  {| users := us; lobbies := lobbies st; lobby_members := lobby_members st;
     chat_messages := chat_messages st; rides := rides st;
     ride_participants := ride_participants st |}.

Definition set_chat_messages (st : DB) (cs : list chat_row) : DB :=
  {| users := users st; lobbies := lobbies st;
     lobby_members := lobby_members st; chat_messages := cs;
     rides := rides st; ride_participants := ride_participants st |}.

Definition set_rides (st : DB) (rs : list ride_row) : DB :=
  {| users := users st; lobbies := lobbies st;
     lobby_members := lobby_members st; chat_messages := chat_messages st;
     rides := rs; ride_participants := ride_participants st |}.

Definition set_ride_participants (st : DB) (ps : list participant_row) : DB :=
  {| users := users st; lobbies := lobbies st;
     lobby_members := lobby_members st; chat_messages := chat_messages st;
     rides := rides st; ride_participants := ps |}.

(** ** Responses *)

Record response := {
  status_code : nat;
  success : bool;
  message : string
}.

Definition json (code : nat) (ok : bool) (msg : string) : response :=
  {| status_code := code; success := ok; message := msg |}.

(** ** Queries shared by the handlers *)

(** [SELECT * FROM lobbies WHERE id = $1] *)
Definition lobbies_by_id (st : DB) (id : uuid) : list lobby_row :=
  filter (fun l => lobby_id l =? id)%string (lobbies st).

(** [SELECT * FROM lobbies WHERE id = $1 AND status = $2] *)
Definition lobbies_by_id_status (st : DB) (id : uuid) (s : string)
  : list lobby_row :=
  filter (fun l => (lobby_id l =? id)%string && (lobby_status l =? s)%string)
         (lobbies st).

(** [SELECT * FROM lobby_members WHERE lobby_id = $1 AND user_id = $2] *)
Definition member_rows (st : DB) (lobby user : uuid) : list member_row :=
  filter (fun m => (member_lobby_id m =? lobby)%string
                   && (member_user_id m =? user)%string)
         (lobby_members st).

(** [... WHERE lobby_id = $1 AND user_id = $2 AND status = $3] *)
Definition member_rows_status (st : DB) (lobby user : uuid) (s : string)
  : list member_row :=
  filter (fun m => (member_lobby_id m =? lobby)%string
                   && (member_user_id m =? user)%string
                   && (member_status m =? s)%string)
         (lobby_members st).

(** [SELECT * FROM lobby_members WHERE lobby_id = $1 AND status = $2] *)
Definition members_with_status (st : DB) (lobby : uuid) (s : string)
  : list member_row :=
  filter (fun m => (member_lobby_id m =? lobby)%string
                   && (member_status m =? s)%string)
         (lobby_members st).

(** [SELECT COUNT( * ) FROM lobby_members WHERE lobby_id = $1 AND status = $2] *)
Definition count_members (st : DB) (lobby : uuid) (s : string) : Z :=
  Z.of_nat (List.length (members_with_status st lobby s)).

(** [UPDATE lobbies SET status = $1 WHERE id = $2] *)
Definition update_lobby_status (st : DB) (s : string) (id : uuid) : DB :=
  set_lobbies st
    (map (fun l =>
            if (lobby_id l =? id)%string then
              {| lobby_id := lobby_id l; creator_id := creator_id l;
                 from_location := from_location l;
                 to_location := to_location l;
                 from_coordinates := from_coordinates l;
                 to_coordinates := to_coordinates l;
                 departure_time := departure_time l;
                 vehicle_type := vehicle_type l;
                 available_seats := available_seats l;
                 price_per_seat := price_per_seat l;
                 description := description l;
                 lobby_status := s |}
            else l)
         (lobbies st)).

(** [UPDATE lobby_members SET status = $1 WHERE lobby_id = $2 AND user_id = $3] *)
Definition update_member_status (st : DB) (s : string) (lobby user : uuid)
  : DB :=
  set_lobby_members st
    (map (fun m =>
            if (member_lobby_id m =? lobby)%string
               && (member_user_id m =? user)%string
            then {| member_lobby_id := member_lobby_id m;
                    member_user_id := member_user_id m;
                    pickup_location := pickup_location m;
                    member_status := s |}
            else m)
         (lobby_members st)).

(** [INSERT INTO lobby_members (lobby_id, user_id, pickup_location)]: the
    status column takes its default, 'active'; the insert raises when the
    pair is already there (UNIQUE(lobby_id, user_id)). *)
Definition insert_member (st : DB) (lobby user : uuid) (pickup : string)
  : option DB :=
  match member_rows st lobby user with
  | [] =>
      Some (set_lobby_members st
              (lobby_members st ++
                 [{| member_lobby_id := lobby; member_user_id := user;
                     pickup_location := pickup;
                     member_status := "active" |}]))
  | _ :: _ => None
  end.

(** [INSERT INTO lobbies ... RETURNING *]: raises when the primary key is
    taken; the status column takes its default, 'active'. *)
Definition insert_lobby (st : DB) (l : lobby_row) : option DB :=
  match lobbies_by_id st (lobby_id l) with
  | [] => Some (set_lobbies st (lobbies st ++ [l]))
  | _ :: _ => None
  end.

(** ** Validation middleware (src/middleware/validation.js)

    express-validator and validator.js are dependencies of the repository;
    the validators used here are modelled from their documented behaviour:
    a missing field is validated as the empty string, [trim] strips white
    space at both ends and replaces the field, [isUUID] accepts the
    8-4-4-4-12 hexadecimal shape. *)

Definition is_hex (c : ascii) : bool :=
  let n := nat_of_ascii c in
  ((48 <=? n) && (n <=? 57) || (65 <=? n) && (n <=? 70)
   || (97 <=? n) && (n <=? 102))%nat.

Fixpoint take_hex (n : nat) (s : string) : option string :=
  match n with
  | O => Some s
  | S k =>
      match s with
      | String c r => if is_hex c then take_hex k r else None
      | EmptyString => None
      end
  end.

Fixpoint uuid_groups (gs : list nat) (s : string) : bool :=
  match gs with
  | [] => false
  | [g] =>
      match take_hex g s with
      | Some EmptyString => true
      | _ => false
      end
  | g :: gs' =>
      match take_hex g s with
      | Some (String "-"%char r) => uuid_groups gs' r
      | _ => false
      end
  end.

Definition isUUID (s : string) : bool :=
  uuid_groups [8; 4; 4; 4; 12]%nat s.

(** The white space of JavaScript ([\s]) among the code units below 256:
    TAB, LF, VT, FF, CR, the space and the no-break space. *)
Definition is_space (c : ascii) : bool :=
  let n := nat_of_ascii c in
  ((n =? 32) || (9 <=? n) && (n <=? 13) || (n =? 160))%nat.

Fixpoint ltrim (s : string) : string :=
  match s with
  | String c r => if is_space c then ltrim r else s
  | EmptyString => EmptyString
  end.

Fixpoint rtrim (s : string) : string :=
  match s with
  | String c r =>
      match rtrim r with
      | EmptyString => if is_space c then EmptyString else String c EmptyString
      | r' => String c r'
      end
  | EmptyString => EmptyString
  end.

Definition trim (s : string) : string := rtrim (ltrim s).

(** [isLength({ min, max })]: the number of characters, here of code
    units. *)
Definition isLength (lo hi : nat) (s : string) : bool :=
  ((lo <=? String.length s) && (String.length s <=? hi))%nat.

(** [isIn([...])] *)
Definition isIn (allowed : list string) (s : string) : bool :=
  existsb (String.eqb s) allowed.

(** [req.params]: the named segments of the matched route. *)
Definition params := list (string * string).

Fixpoint param (name : string) (ps : params) : option string :=
  match ps with
  | [] => None
  | (k, v) :: ps' => if (k =? name)%string then Some v else param name ps'
  end.

(** The string a validator sees for a field. *)
Definition field_string (v : option string) : string :=
  match v with
  | Some s => s
  | None => ""
  end.

(** [uuidValidation = [param('id').isUUID(), handleValidationErrors]] *)
Definition uuidValidation (ps : params) : bool :=
  isUUID (field_string (param "id" ps)).

Definition validation_failed : response :=
  json 400 false "Validation failed".

Definition server_error (msg : string) : response := json 500 false msg.

(** ** Lobby routes (routes/lobbies.js, in src/unnamed/part_000) *)

(** [a || b] on a possibly missing string: the empty string is falsy. *)
Definition js_or (a : option string) (b : string) : string :=
  match a with
  | Some s => if (s =? "")%string then b else s
  | None => b
  end.

Record create_body := {
  fromLocation : string;
  toLocation : string;
  departureTime : string;
  vehicleType : string;
  availableSeats : Z;
  pricePerSeat : Q;
  body_description : string
}.

Section Lobbies.

(** The location service: [None] when [geocodeAddress] throws,
    [Some None] when it returns null, otherwise the coordinates of the
    first feature. *)
Variable geocodeAddress : string -> option (option (Q * Q)).

(** validator.js [isISO8601], kept abstract. *)
Variable isISO8601 : string -> bool.

(** [createLobbyValidation]: the body as the handler sees it (locations
    trimmed), or nothing when a rule fails. *)
Definition createLobbyValidation (b : create_body) : option create_body :=
  let from := trim (fromLocation b) in
  let to := trim (toLocation b) in
  if isLength 2 255 from
     && isLength 2 255 to
     && isISO8601 (departureTime b)
     && isIn ["small"; "medium"; "large"] (vehicleType b)
     && (1 <=? availableSeats b) && (availableSeats b <=? 15)
     && Qle_bool 0 (pricePerSeat b)
  then Some {| fromLocation := from; toLocation := to;
               departureTime := departureTime b;
               vehicleType := vehicleType b;
               availableSeats := availableSeats b;
               pricePerSeat := pricePerSeat b;
               body_description := body_description b |}
  else None.

(** Handler of [POST /]; [new_id] is the id PostgreSQL generates for the
    lobby row. *)
Definition create_lobby (st : DB) (user new_id : uuid) (b : create_body)
  : DB * response :=
  match geocodeAddress (fromLocation b) with
  | None => (st, server_error "Failed to create lobby")
  | Some fromCoords =>
      match geocodeAddress (toLocation b) with
      | None => (st, server_error "Failed to create lobby")
      | Some toCoords =>
          match fromCoords, toCoords with
          | Some fc, Some tc =>
              let lobby :=
                {| lobby_id := new_id; creator_id := user;
                   from_location := fromLocation b;
                   to_location := toLocation b;
                   from_coordinates := fc; to_coordinates := tc;
                   departure_time := departureTime b;
                   vehicle_type := vehicleType b;
                   available_seats := availableSeats b;
                   price_per_seat := pricePerSeat b;
                   description := body_description b;
                   lobby_status := "active" |} in
              match insert_lobby st lobby with
              | None => (st, server_error "Failed to create lobby")
              | Some st1 =>
                  (* Add creator as first member *)
                  match insert_member st1 new_id user (fromLocation b) with
                  | None => (st1, server_error "Failed to create lobby")
                  | Some st2 =>
                      (st2, json 201 true "Lobby created successfully")
                  end
              end
          | _, _ =>
              (st, json 400 false
                     "Could not find coordinates for the provided locations")
          end
      end
  end.

(** [router.post('/', authenticateToken, createLobbyValidation, ...)] *)
Definition post_lobby (st : DB) (user new_id : uuid) (b : create_body)
  : DB * response :=
  match createLobbyValidation b with
  | Some b' => create_lobby st user new_id b'
  | None => (st, validation_failed)
  end.

End Lobbies.

(** Handler of [POST /:id/join]. *)
Definition join_lobby (st : DB) (user lobbyId : uuid)
           (pickupLocation : option string) : DB * response :=
  (* Check if lobby exists and is active *)
  match lobbies_by_id_status st lobbyId "active" with
  | [] => (st, json 404 false "Lobby not found or not active")
  | lobby :: _ =>
      (* Check if user is already a member *)
      if (0 <? List.length (member_rows st lobbyId user))%nat then
        (st, json 400 false "You are already a member of this lobby")
      (* Check if lobby has available seats *)
      else if count_members st lobbyId "active" >=? available_seats lobby then
        (st, json 400 false "Lobby is full")
      else
        match insert_member st lobbyId user
                (js_or pickupLocation (from_location lobby)) with
        | Some st' => (st', json 200 true "Successfully joined lobby")
        | None => (st, server_error "Failed to join lobby")
        end
  end.

Definition post_join (st : DB) (user id : uuid)
           (pickupLocation : option string) : DB * response :=
  if uuidValidation [("id", id)] then join_lobby st user id pickupLocation
  else (st, validation_failed).

(** Handler of [POST /:id/leave]. *)
Definition leave_lobby (st : DB) (user lobbyId : uuid) : DB * response :=
  (* Check if user is a member *)
  match member_rows_status st lobbyId user "active" with
  | [] => (st, json 400 false "You are not a member of this lobby")
  | _ :: _ =>
      (* Remove user from lobby *)
      let st1 := update_member_status st "left" lobbyId user in
      (* Check if user was the creator *)
      match lobbies_by_id st1 lobbyId with
      | [] => (st1, server_error "Failed to leave lobby")
      | lobby :: _ =>
          let st2 :=
            if (creator_id lobby =? user)%string
            then update_lobby_status st1 "cancelled" lobbyId
            else st1 in
          (st2, json 200 true "Successfully left lobby")
      end
  end.

Definition post_leave (st : DB) (user id : uuid) : DB * response :=
  if uuidValidation [("id", id)] then leave_lobby st user id
  else (st, validation_failed).

(** Handler of [PUT /:id/status]. *)
Definition update_status (st : DB) (user lobbyId : uuid) (status : string)
  : DB * response :=
  if negb (isIn ["active"; "started"; "completed"; "cancelled"] status) then
    (st, json 400 false "Invalid status")
  else
    (* Check if user is the creator *)
    match lobbies_by_id st lobbyId with
    | [] => (st, json 404 false "Lobby not found")
    | lobby :: _ =>
        if negb (creator_id lobby =? user)%string then
          (st, json 403 false "Only lobby creator can update status")
        else
          (update_lobby_status st status lobbyId,
           json 200 true "Lobby status updated successfully")
    end.

Definition put_status (st : DB) (user id : uuid) (status : string)
  : DB * response :=
  if uuidValidation [("id", id)] then update_status st user id status
  else (st, validation_failed).

(** ** Chat: REST route (routes/chat.js, in src/unnamed/part_001) and socket
       events (services/socketService.js) *)

(** [VARCHAR(n)]: a longer value makes the statement raise. *)
Definition varchar (n : nat) (s : string) : bool :=
  (String.length s <=? n)%nat.

(** [INSERT INTO chat_messages (lobby_id, user_id, message, message_type)]:
    [message] is NOT NULL, [message_type] is VARCHAR(20); [new_id] is the
    generated primary key. *)
Definition insert_chat (st : DB) (new_id lobby user : uuid)
           (msg : option string) (kind : string) : option DB :=
  match msg with
  | None => None
  | Some text =>
      if varchar 20 kind
         && negb (existsb (fun c => chat_id c =? new_id)%string
                          (chat_messages st))
      then Some (set_chat_messages st
                   (chat_messages st ++
                      [{| chat_id := new_id; chat_lobby_id := lobby;
                          chat_user_id := user; chat_message := text;
                          message_type := kind |}]))
      else None
  end.

(** A destructuring default: [{ messageType = 'text' } = data]. *)
Definition default_to (d : string) (v : option string) : string :=
  match v with
  | Some s => s
  | None => d
  end.

Record message_body := {
  body_message : option string;
  messageType : option string
}.

(** [sendMessageValidation]: the message is trimmed and must have 1 to 1000
    characters; the type is optional. *)
Definition sendMessageValidation (b : message_body) : option message_body :=
  let text := trim (field_string (body_message b)) in
  if isLength 1 1000 text
     && match messageType b with
        | Some k => isIn ["text"; "image"; "location"] k
        | None => true
        end
  then Some {| body_message := Some text; messageType := messageType b |}
  else None.

(** Handler of [POST /lobby/:lobbyId/message]. *)
Definition send_message_rest (st : DB) (user new_id lobbyId : uuid)
           (b : message_body) : DB * response :=
  let kind := default_to "text" (messageType b) in
  match member_rows_status st lobbyId user "active" with
  | [] => (st, json 403 false "You are not an active member of this lobby")
  | _ :: _ =>
      match insert_chat st new_id lobbyId user (body_message b) kind with
      | None => (st, server_error "Failed to send message")
      | Some st' =>
          (* Get user info for the response *)
          match filter (fun u => user_id u =? user)%string (users st') with
          | [] => (st', server_error "Failed to send message")
          | _ :: _ => (st', json 201 true "Message sent successfully")
          end
      end
  end.

(** [router.post('/lobby/:lobbyId/message', authenticateToken,
    uuidValidation, sendMessageValidation, ...)]: the route names its
    segment [lobbyId], [uuidValidation] looks at [id]. *)
Definition post_message (st : DB) (user new_id lobbyId : uuid)
           (b : message_body) : DB * response :=
  if uuidValidation [("lobbyId", lobbyId)] then
    match sendMessageValidation b with
    | Some b' => send_message_rest st user new_id lobbyId b'
    | None => (st, validation_failed)
    end
  else (st, validation_failed).

(** What a socket handler emits. *)
Inductive emitted :=
| emit_error (msg : string)
| emit_room (room event : string)
| emit_nothing.

(** [socket.on('send_message', ...)] *)
Definition send_message (st : DB) (user new_id lobbyId : uuid)
           (b : message_body) : DB * emitted :=
  let kind := default_to "text" (messageType b) in
  (* Verify user is member of this lobby *)
  match member_rows_status st lobbyId user "active" with
  | [] => (st, emit_error "Not authorized to send messages to this lobby")
  | _ :: _ =>
      (* Save message to database *)
      match insert_chat st new_id lobbyId user (body_message b) kind with
      | None => (st, emit_error "Failed to send message")
      | Some st' => (st', emit_room ("lobby_" ++ lobbyId) "new_message")
      end
  end.

(** [socket.on('lobby_status_update', ...)] *)
Definition lobby_status_update (st : DB) (user lobbyId : uuid)
           (status : string) : DB * emitted :=
  (* Verify user is creator of this lobby *)
  match filter (fun l => (lobby_id l =? lobbyId)%string
                         && (creator_id l =? user)%string) (lobbies st) with
  | [] => (st, emit_error "Not authorized to update this lobby")
  | _ :: _ =>
      if varchar 20 status then
        (update_lobby_status st status lobbyId,
         emit_room ("lobby_" ++ lobbyId) "lobby_status_changed")
      else (st, emit_error "Failed to update lobby status")
  end.

(** ** Rides (routes/rides.js) *)

Record complete_body := {
  totalAmount : option Q;
  distanceKm : option Q;
  durationMinutes : option Z
}.

(** [totalAmount / members.length]: NaN when the amount is missing. *)
Definition js_div (a : option Q) (n : nat) : js_number :=
  match a with
  | Some q => Num (q / inject_Z (Z.of_nat n))
  | None => NaN
  end.

(** A pooled connection, as far as the handler can tell: which of the
    statements sent on it (numbered from 0 after BEGIN) the store rejects. *)
Definition client := nat -> bool.

(** [query.pool]. The handler imports [query] from config/database.js, where
    it is the arrow function [(text, params) => pool.query(text, params)];
    a function object has no [pool] property, so the expression is
    [undefined]. *)
Definition query_pool : option client := None.

(** The row of [INSERT INTO rides (lobby_id, driver_id, from_location,
    to_location, departure_time, completion_time, total_amount, distance_km,
    duration_minutes, status)] as it is stored: [total_amount] and
    [distance_km] at scale 2. *)
Definition ride_for (new_id lobbyId user : uuid) (lobby : lobby_row)
           (amount : Q) (b : complete_body) : ride_row :=
  {| ride_id := new_id; ride_lobby_id := lobbyId; driver_id := user;
     ride_from_location := from_location lobby;
     ride_to_location := to_location lobby;
     ride_departure_time := departure_time lobby;
     total_amount := round2 amount;
     distance_km := option_map round2 (distanceKm b);
     duration_minutes := durationMinutes b;
     ride_status := "completed" |}.

(** Whether a nullable column takes the value. *)
Definition fits {A} (column : A -> bool) (v : option A) : bool :=
  match v with
  | Some x => column x
  | None => true
  end.

(** [INSERT INTO rides (...) VALUES (...) RETURNING *]: [total_amount] is
    NOT NULL DECIMAL(10,2), [distance_km] DECIMAL(8,2), [duration_minutes]
    INTEGER, and the insert raises when a value does not fit its column;
    [new_id] is the generated primary key. *)
Definition insert_ride (st : DB) (new_id lobbyId user : uuid)
           (lobby : lobby_row) (b : complete_body) : option (DB * ride_row) :=
  match totalAmount b with
  | None => None
  | Some amount =>
      if negb (is_some (decimal 10 amount)
               && fits (fun d => is_some (decimal 8 d)) (distanceKm b)
               && fits int4 (durationMinutes b))
      then None
      else if existsb (fun r => ride_id r =? new_id)%string (rides st)
      then None
      else
        let ride := ride_for new_id lobbyId user lobby amount b in
        Some (set_rides st (rides st ++ [ride]), ride)
  end.

(** The row of [INSERT INTO ride_participants (ride_id, user_id,
    amount_paid, pickup_location, dropoff_location)] as it is stored:
    [amount_paid], a DECIMAL(10,2), at scale 2; rating and review start
    null. *)
Definition participant_for (ride : ride_row) (member : member_row)
           (amount : js_number) (lobby : lobby_row) : participant_row :=
  {| part_ride_id := ride_id ride;
     part_user_id := member_user_id member;
     amount_paid := scale2 amount;
     part_pickup_location := pickup_location member;
     dropoff_location := to_location lobby;
     rating := None; review := None |}.

(** The insert, which raises when the amount does not fit its column. *)
Definition insert_participant (st : DB) (ride : ride_row)
           (member : member_row) (amount : js_number) (lobby : lobby_row)
  : option DB :=
  if is_some (decimal_number 10 amount) then
    Some (set_ride_participants st
            (ride_participants st
             ++ [participant_for ride member amount lobby]))
  else None.

(** [UPDATE users SET total_rides = total_rides + 1 WHERE id = $1], on the
    rows and on the database. *)
Definition bump_total_rides (us : list user_row) (user : uuid)
  : list user_row :=
  map (fun u =>
         if (user_id u =? user)%string then
           {| user_id := user_id u;
              user_total_rides := user_total_rides u + 1;
              user_rating := user_rating u;
              user_is_active := user_is_active u |}
         else u)
      us.

(** The update raises when a counter leaves the INTEGER range. *)
Definition increment_total_rides (st : DB) (user : uuid) : option DB :=
  if forallb (fun u => negb (user_id u =? user)%string
                       || int4 (user_total_rides u + 1))
             (users st)
  then Some (set_users st (bump_total_rides (users st) user))
  else None.

(** The [for (const member of members)] loop; [k] numbers the next
    statement. *)
Fixpoint add_participants (c : client) (k : nat) (st : DB) (ride : ride_row)
         (lobby : lobby_row) (amountPerPerson : js_number)
         (members : list member_row) : option (nat * DB) :=
  match members with
  | [] => Some (k, st)
  | member :: rest =>
      if c k then None
      else
        match insert_participant st ride member amountPerPerson lobby with
        | None => None
        | Some st1 =>
            if c (S k) then None
            else
              match increment_total_rides st1 (member_user_id member) with
              | None => None
              | Some st2 =>
                  add_participants c (S (S k)) st2 ride lobby amountPerPerson
                    rest
              end
        end
  end.

(** What lies between BEGIN and COMMIT, run on the connection [c]: the
    database to commit, or nothing when a statement raised (the catch block
    then sends ROLLBACK). *)
Definition complete_transaction (c : client) (st : DB)
           (user new_id lobbyId : uuid) (lobby : lobby_row)
           (members : list member_row) (amountPerPerson : js_number)
           (b : complete_body) : option DB :=
  if c O then None
  else
    (* Create ride record *)
    match insert_ride st new_id lobbyId user lobby b with
    | None => None
    | Some (st1, ride) =>
        (* Add ride participants *)
        match add_participants c 1%nat st1 ride lobby amountPerPerson
                members with
        | None => None
        | Some (k, st2) =>
            (* Update lobby status *)
            if c k then None
            else
              let st3 := update_lobby_status st2 "completed" lobbyId in
              (* COMMIT *)
              if c (S k) then None else Some st3
        end
    end.

(** Handler of [POST /complete/:lobbyId], as a function of what
    [query.pool] evaluates to. *)
Definition complete_ride_with (pool : option client) (st : DB)
           (user new_id lobbyId : uuid) (b : complete_body)
  : DB * response :=
  (* Check if user is the creator of the lobby *)
  match filter (fun l => (lobby_id l =? lobbyId)%string
                         && (creator_id l =? user)%string
                         && (lobby_status l =? "started")%string)
               (lobbies st) with
  | [] =>
      (st, json 404 false
             "Lobby not found or you are not authorized to complete it")
  | lobby :: _ =>
      (* Get all active members *)
      match members_with_status st lobbyId "active" with
      | [] => (st, json 400 false "No active members in lobby")
      | m :: ms =>
          let members := m :: ms in
          let amountPerPerson :=
            js_div (totalAmount b) (List.length members) in
          (* Start transaction *)
          match pool with
          | None => (st, server_error "Failed to complete ride")
          | Some c =>
              match complete_transaction c st user new_id lobbyId lobby
                      members amountPerPerson b with
              | Some st' => (st', json 200 true "Ride completed successfully")
              | None => (st, server_error "Failed to complete ride")
              end
          end
      end
  end.

(** The handler in this repository. *)
Definition complete_ride : DB -> uuid -> uuid -> uuid -> complete_body
                           -> DB * response :=
  complete_ride_with query_pool.

(** [router.post('/complete/:lobbyId', authenticateToken, uuidValidation,
    ...)]: the route names its segment [lobbyId], [uuidValidation] looks at
    [id]. *)
Definition post_complete (st : DB) (user new_id lobbyId : uuid)
           (b : complete_body) : DB * response :=
  if uuidValidation [("lobbyId", lobbyId)]
  then complete_ride st user new_id lobbyId b
  else (st, validation_failed).

Record rate_body := {
  participantUserId : option string;
  body_rating : option Z;
  body_review : option string
}.

(** [SELECT * FROM ride_participants WHERE ride_id = $1 AND user_id = $2] *)
Definition participant_rows (st : DB) (ride user : uuid)
  : list participant_row :=
  filter (fun p => (part_ride_id p =? ride)%string
                   && (part_user_id p =? user)%string)
         (ride_participants st).


(** [UPDATE ride_participants SET rating = $1, review = $2
     WHERE ride_id = $3 AND user_id = $4] *)
Definition update_rating (st : DB) (r : Z) (rev : option string)
           (ride user : uuid) : DB :=
  set_ride_participants st
    (map (fun p =>
            if (part_ride_id p =? ride)%string
               && (part_user_id p =? user)%string
            then {| part_ride_id := part_ride_id p;
                    part_user_id := part_user_id p;
                    amount_paid := amount_paid p;
                    part_pickup_location := part_pickup_location p;
                    dropoff_location := dropoff_location p;
                    rating := Some r; review := rev |}
            else p)
         (ride_participants st)).

(** The non-null ratings of a user's rows, over all rides. *)
Fixpoint ratings_of (user : uuid) (ps : list participant_row) : list Z :=
  match ps with
  | [] => []
  | p :: ps' =>
      match rating p with
      | Some r =>
          if (part_user_id p =? user)%string then r :: ratings_of user ps'
          else ratings_of user ps'
      | None => ratings_of user ps'
      end
  end.

Definition sumZ (l : list Z) : Z := fold_right Z.add 0 l.

(** [parseFloat] of [SELECT AVG(rating) ... WHERE user_id = $1 AND rating IS
    NOT NULL]: AVG over no row is NULL, which parses to NaN. *)
Definition avg_rating (st : DB) (user : uuid) : js_number :=
  match ratings_of user (ride_participants st) with
  | [] => NaN
  | r :: rs =>
      Num (inject_Z (sumZ (r :: rs))
           / inject_Z (Z.of_nat (List.length (r :: rs))))
  end.

(** [UPDATE users SET rating = $1 WHERE id = $2]: the column is a
    DECIMAL(3,2) and stores the value at scale 2. The ratings of the table
    are from 1 to 5 (the CHECK of [ride_participants.rating]), so that their
    mean fits the column. *)
Definition update_user_rating (st : DB) (avg : js_number) (user : uuid)
  : DB :=
  set_users st
    (map (fun u =>
            if (user_id u =? user)%string then
              {| user_id := user_id u;
                 user_total_rides := user_total_rides u;
                 user_rating := scale2 avg;
                 user_is_active := user_is_active u |}
            else u)
         (users st)).

(** Handler of [POST /:id/rate]. *)
Definition rate_participant (st : DB) (user id : uuid) (b : rate_body)
  : DB * response :=
  match participantUserId b, body_rating b with
  | Some ratee, Some r =>
      if (ratee =? "")%string || (r =? 0) then
        (st, json 400 false "Participant user ID and rating are required")
      else if (r <? 1) || (r >? 5) then
        (st, json 400 false "Rating must be between 1 and 5")
      else
        (* Check if user was a participant in this ride *)
        match participant_rows st id user with
        | [] => (st, json 403 false "You were not a participant in this ride")
        | _ :: _ =>
            (* Check if the participant to be rated was in this ride *)
            match participant_rows st id ratee with
            | [] =>
                (st, json 400 false "User was not a participant in this ride")
            | _ :: _ =>
                (* Check if already rated *)
                match filter (fun p => is_some (rating p))
                             (participant_rows st id ratee) with
                | _ :: _ =>
                    (st, json 400 false
                           "You have already rated this participant")
                | [] =>
                    (* Update rating *)
                    let st1 := update_rating st r (body_review b) id ratee in
                    (* Update user's overall rating *)
                    let avgRating := avg_rating st1 ratee in
                    let st2 := update_user_rating st1 avgRating ratee in
                    (st2, json 200 true "Rating submitted successfully")
                end
            end
        end
  | _, _ =>
      (st, json 400 false "Participant user ID and rating are required")
  end.

Definition post_rate (st : DB) (user id : uuid) (b : rate_body)
  : DB * response :=
  if uuidValidation [("id", id)] then rate_participant st user id b
  else (st, validation_failed).

(** ** The service as a whole *)

Inductive request :=
| CreateLobby (user new_id : uuid) (b : create_body)
| JoinLobby (user id : uuid) (pickupLocation : option string)
| LeaveLobby (user id : uuid)
| PutStatus (user id : uuid) (status : string)
| CompleteRide (user new_id lobbyId : uuid) (b : complete_body)
| RateParticipant (user id : uuid) (b : rate_body)
| PostMessage (user new_id lobbyId : uuid) (b : message_body)
| SocketMessage (user new_id lobbyId : uuid) (b : message_body)
| SocketStatus (user lobbyId : uuid) (status : string).

(** The database after one request is served. *)
Definition serve (geocodeAddress : string -> option (option (Q * Q)))
           (isISO8601 : string -> bool) (st : DB) (r : request) : DB :=
  match r with
  | CreateLobby user new_id b =>
      fst (post_lobby geocodeAddress isISO8601 st user new_id b)
  | JoinLobby user id pickup => fst (post_join st user id pickup)
  | LeaveLobby user id => fst (post_leave st user id)
  | PutStatus user id status => fst (put_status st user id status)
  | CompleteRide user new_id lobbyId b =>
      fst (post_complete st user new_id lobbyId b)
  | RateParticipant user id b => fst (post_rate st user id b)
  | PostMessage user new_id lobbyId b =>
      fst (post_message st user new_id lobbyId b)
  | SocketMessage user new_id lobbyId b =>
      fst (send_message st user new_id lobbyId b)
  | SocketStatus user lobbyId status =>
      fst (lobby_status_update st user lobbyId status)
  end.

(** Requests served one after the other. *)
Definition run (geocodeAddress : string -> option (option (Q * Q)))
           (isISO8601 : string -> bool) (st : DB) (rs : list request) : DB :=
  fold_left (serve geocodeAddress isISO8601) rs st.

(** ** Properties of a database *)

(** The active members of a lobby never outnumber its seats. *)
Definition capacity_ok (st : DB) : Prop :=
  forall l, In l (lobbies st) ->
            count_members st (lobby_id l) "active" <= available_seats l.

(** [lobbies.id] is a primary key. *)
Definition lobby_pk (st : DB) : Prop := NoDup (map lobby_id (lobbies st)).

(** [lobby_members.lobby_id REFERENCES lobbies(id)]. *)
Definition members_fk (st : DB) : Prop :=
  forall m, In m (lobby_members st) ->
            In (member_lobby_id m) (map lobby_id (lobbies st)).

Definition db_ok (st : DB) : Prop :=
  lobby_pk st /\ members_fk st /\ capacity_ok st.

(** The arithmetic mean of a list of ratings. *)
Definition mean (rs : list Z) : Q :=
  inject_Z (sumZ rs) / inject_Z (Z.of_nat (List.length rs)).

(** The number [a] is the rational [q]. *)
Definition is_num (a : js_number) (q : Q) : Prop :=
  match a with
  | Num x => (x == q)%Q
  | NaN => False
  end.

(** Every user who has been rated carries the mean of the ratings, to two
    decimals. *)
Definition rating_ok (st : DB) : Prop :=
  forall u, In u (users st) ->
            ratings_of (user_id u) (ride_participants st) <> [] ->
            is_num (user_rating u)
                   (round2 (mean (ratings_of (user_id u)
                                             (ride_participants st)))).

(** A member row with its status set to 'left'. *)
Definition marked_left (m : member_row) : member_row :=
  {| member_lobby_id := member_lobby_id m;
     member_user_id := member_user_id m;
     pickup_location := pickup_location m;
     member_status := "left" |}.

(** A lobby row with its status set to [s]. *)
Definition with_status (l : lobby_row) (s : string) : lobby_row :=
  {| lobby_id := lobby_id l; creator_id := creator_id l;
     from_location := from_location l; to_location := to_location l;
     from_coordinates := from_coordinates l;
     to_coordinates := to_coordinates l;
     departure_time := departure_time l; vehicle_type := vehicle_type l;
     available_seats := available_seats l;
     price_per_seat := price_per_seat l; description := description l;
     lobby_status := s |}.

(** The lobbies after the status of the lobby [id] is set to [s]. *)
Definition lobbies_with_status (ls : list lobby_row) (id : uuid) (s : string)
  : list lobby_row :=
  map (fun l => if (lobby_id l =? id)%string then with_status l s else l) ls.

(** A user row with its rating set to [a]. *)
Definition with_rating (u : user_row) (a : js_number) : user_row :=
  {| user_id := user_id u; user_total_rides := user_total_rides u;
     user_rating := a; user_is_active := user_is_active u |}.

(** The users after the rating of the user [id] is set to [a]. *)
Definition users_with_rating (us : list user_row) (id : uuid) (a : js_number)
  : list user_row :=
  map (fun u => if (user_id u =? id)%string then with_rating u a else u) us.

(** A participant row with the rating [r] and the review [rev]. *)
Definition rated (p : participant_row) (r : Z) (rev : option string)
  : participant_row :=
  {| part_ride_id := part_ride_id p; part_user_id := part_user_id p;
     amount_paid := amount_paid p;
     part_pickup_location := part_pickup_location p;
     dropoff_location := dropoff_location p;
     rating := Some r; review := rev |}.

(** The participant rows after [user] is rated for the ride [ride]. *)
Definition participants_rated (ps : list participant_row) (ride user : uuid)
           (r : Z) (rev : option string) : list participant_row :=
  map (fun p => if (part_ride_id p =? ride)%string
                   && (part_user_id p =? user)%string
                then rated p r rev else p)
      ps.


(** The pair a membership row is about. *)
Definition member_pair (m : member_row) : uuid * uuid :=
  (member_lobby_id m, member_user_id m).

(** No membership row of [st] has gone in [st']. *)
Definition membership_kept (st st' : DB) : Prop :=
  incl (map member_pair (lobby_members st))
       (map member_pair (lobby_members st')).

(** What a status update leaves alone in a lobby row. *)
Definition lobby_key (l : lobby_row) : uuid * Z :=
  (lobby_id l, available_seats l).


(** The payload and kind the data model allows for a chat row. *)
Definition chat_row_ok (c : chat_row) : bool :=
  isLength 1 1000 (chat_message c)
  && isIn ["text"; "image"; "location"] (message_type c).


(** ** Sample data *)

Definition alice : uuid := "a0000000-0000-4000-8000-000000000001".
Definition bob : uuid := "b0000000-0000-4000-8000-000000000002".
Definition carol : uuid := "c0000000-0000-4000-8000-000000000003".
Definition lobby1 : uuid := "10000000-0000-4000-8000-00000000000a".
Definition ride0 : uuid := "20000000-0000-4000-8000-000000000000".
Definition ride1 : uuid := "20000000-0000-4000-8000-00000000000b".
Definition msg1 : uuid := "30000000-0000-4000-8000-00000000000c".

Definition geocode_found (_ : string) : option (option (Q * Q)) :=
  Some (Some (38 # 1, 9 # 1)%Q).

Definition any_time (_ : string) : bool := true.

Definition bole_piassa (seats : Z) : create_body :=
  {| fromLocation := "Bole"; toLocation := "Piassa";
     departureTime := "2026-01-01T08:00:00Z"; vehicleType := "medium";
     availableSeats := seats; pricePerSeat := (45 # 1)%Q;
     body_description := "Comfortable ride from Bole to Piassa" |}.

(** The row of Alice's lobby. *)
Definition alice_lobby (seats : Z) (status : string) : lobby_row :=
  {| lobby_id := lobby1; creator_id := alice;
     from_location := "Bole"; to_location := "Piassa";
     from_coordinates := (38 # 1, 9 # 1)%Q;
     to_coordinates := (38 # 1, 9 # 1)%Q;
     departure_time := "2026-01-01T08:00:00Z";
     vehicle_type := "medium"; available_seats := seats;
     price_per_seat := (45 # 1)%Q;
     description := "Comfortable ride from Bole to Piassa";
     lobby_status := status |}.

(** Alice's lobby with two seats, Bob on board. *)
Definition db_open : DB :=
  run geocode_found any_time empty_db
      [CreateLobby alice lobby1 (bole_piassa 2); JoinLobby bob lobby1 None].

Definition db_started : DB :=
  run geocode_found any_time db_open [PutStatus alice lobby1 "started"].

Definition db_completed : DB :=
  run geocode_found any_time db_started [PutStatus alice lobby1 "completed"].

Definition fare_90 : complete_body :=
  {| totalAmount := Some (90 # 1)%Q; distanceKm := Some (12 # 1)%Q;
     durationMinutes := Some 30 |}.

Definition sample_user (id : uuid) : user_row :=
  {| user_id := id; user_total_rides := 0; user_rating := Num (5 # 1)%Q;
     user_is_active := true |}.

Definition sample_participant (ride user : uuid) (r : option Z)
  : participant_row :=
  {| part_ride_id := ride; part_user_id := user;
     amount_paid := Num (45 # 1)%Q; part_pickup_location := "Bole";
     dropoff_location := "Piassa"; rating := r; review := None |}.

(** A database holding two rides: an earlier one, for which Alice got five
    stars, and one with Alice and Bob aboard, nobody rated yet. *)
Definition db_ride : DB :=
  {| users := [sample_user alice; sample_user bob];
     lobbies := lobbies db_completed;
     lobby_members := lobby_members db_completed;
     chat_messages := [];
     rides := [];
     ride_participants :=
       [sample_participant ride0 alice (Some 5);
        sample_participant ride1 alice None;
        sample_participant ride1 bob None] |}.

Definition ride2 : uuid := "20000000-0000-4000-8000-00000000000c".

(** [db_ride] with a third ride, for which Alice got four stars. *)
Definition db_ride_4 : DB :=
  set_ride_participants db_ride
    (sample_participant ride2 alice (Some 4) :: ride_participants db_ride).

(** A connection on which no statement is rejected. *)
Definition healthy : client := fun _ => false.

(** The lobby after its creator, Alice, has left it. *)
Definition db_creator_left : DB :=
  run geocode_found any_time db_open [LeaveLobby alice lobby1].

(** The lobby after Bob has left it. *)
Definition db_bob_left : DB :=
  run geocode_found any_time db_open [LeaveLobby bob lobby1].

(** Alice gives herself one star. *)
Definition self_rating : rate_body :=
  {| participantUserId := Some alice; body_rating := Some 1;
     body_review := None |}.

(** Bob gives Alice four stars. *)
Definition bob_rates_alice : rate_body :=
  {| participantUserId := Some alice; body_rating := Some 4;
     body_review := Some "ok" |}.

(** An empty message of an unknown kind. *)
Definition empty_video : message_body :=
  {| body_message := Some ""; messageType := Some "video" |}.

(** ** Authentication (middleware/auth.js, in src/unnamed/part_003, and
       [socketAuth] of services/socketService.js)

    [jwt.verify] belongs to the jsonwebtoken package: the handlers take it as
    an argument, with the outcomes they tell apart. *)

Inductive jwt_result :=
| jwt_payload (userId : uuid)
| JsonWebTokenError
| TokenExpiredError
| jwt_other_error.

(** [s.split(' ')] *)
Fixpoint split_space (s : string) : list string :=
  match s with
  | EmptyString => [EmptyString]
  | String c r =>
      if (c =? " ")%char then EmptyString :: split_space r
      else
        match split_space r with
        | w :: ws => String c w :: ws
        | [] => [String c EmptyString]
        end
  end.

(** [authHeader && authHeader.split(' ')[1]], when it is truthy. *)
Definition bearer_token (authHeader : option string) : option string :=
  match authHeader with
  | None => None
  | Some h =>
      if (h =? "")%string then None
      else
        match nth_error (split_space h) 1 with
        | Some t => if (t =? "")%string then None else Some t
        | None => None
        end
  end.

(** [SELECT ... FROM users WHERE id = $1 AND is_active = true] *)
Definition active_users (st : DB) (id : uuid) : list user_row :=
  filter (fun u => (user_id u =? id)%string && user_is_active u) (users st).

Inductive auth_result :=
| auth_next (user : user_row)
| auth_reject (r : response).

(** [authenticateToken]: [next()] with [req.user], or the answer sent. *)
Definition authenticateToken (jwt_verify : string -> jwt_result) (st : DB)
           (authHeader : option string) : auth_result :=
  match bearer_token authHeader with
  | None => auth_reject (json 401 false "Access token required")
  | Some token =>
      match jwt_verify token with
      | jwt_payload userId =>
          (* Check if user exists and is active *)
          match active_users st userId with
          | [] => auth_reject (json 401 false "Invalid token or user not found")
          | u :: _ => auth_next u
          end
      | JsonWebTokenError => auth_reject (json 401 false "Invalid token")
      | TokenExpiredError => auth_reject (json 401 false "Token expired")
      | jwt_other_error => auth_reject (json 500 false "Authentication failed")
      end
  end.

(** [optionalAuth]: [req.user], null when anything is amiss. *)
Definition optionalAuth (jwt_verify : string -> jwt_result) (st : DB)
           (authHeader : option string) : option user_row :=
  match bearer_token authHeader with
  | None => None
  | Some token =>
      match jwt_verify token with
      | jwt_payload userId =>
          match active_users st userId with
          | [] => None
          | u :: _ => Some u
          end
      | _ => None
      end
  end.

Inductive socket_auth_result :=
| socket_accept (user : user_row)
| socket_refuse (msg : string).

(** [socketAuth]: [socket.user] is set, or [next] gets an error;
    [token] is [socket.handshake.auth.token]. *)
Definition socketAuth (jwt_verify : string -> jwt_result) (st : DB)
           (token : option string) : socket_auth_result :=
  match token with
  | None => socket_refuse "Authentication error"
  | Some t =>
      if (t =? "")%string then socket_refuse "Authentication error"
      else
        match jwt_verify t with
        | jwt_payload userId =>
            match active_users st userId with
            | [] => socket_refuse "User not found"
            | u :: _ => socket_accept u
            end
        | _ => socket_refuse "Authentication error"
        end
  end.

(** A string without a space. *)
Fixpoint no_space (s : string) : bool :=
  match s with
  | EmptyString => true
  | String c r => negb (c =? " ")%char && no_space r
  end.

(** The rows of [user_sessions], as far as the routes use them. *)
Record session_row := {
  session_user_id : uuid;
  token_hash : string
}.

(** Handler of [DELETE /account] (routes/users.js, in src/unnamed/part_002):
    the account is marked inactive and its sessions are deleted. *)
Definition delete_account (st : DB) (sessions : list session_row)
           (user : uuid) : DB * list session_row * response :=
  (set_users st
     (map (fun u =>
             if (user_id u =? user)%string then
               {| user_id := user_id u;
                  user_total_rides := user_total_rides u;
                  user_rating := user_rating u;
                  user_is_active := false |}
             else u)
          (users st)),
   filter (fun s => negb (session_user_id s =? user)%string) sessions,
   json 200 true "Account deleted successfully").

(** A token service for the examples: it knows Alice's and Bob's tokens. *)
Definition sample_verify (token : string) : jwt_result :=
  if (token =? "alice-token")%string then jwt_payload alice
  else if (token =? "bob-token")%string then jwt_payload bob
  else if (token =? "old-token")%string then TokenExpiredError
  else JsonWebTokenError.


(** ** Reading and deleting chat messages (routes/chat.js, in
       src/unnamed/part_001) *)

(** [Math.ceil(total / limit)] on integers, [total] a count: a number,
    Infinity or NaN. *)
Inductive js_pages :=
| pages (n : Z)
| pages_infinity
| pages_nan.

Definition ceil_div (total limit : Z) : js_pages :=
  if limit =? 0 then (if total =? 0 then pages_nan else pages_infinity)
  else pages ((total + limit - 1) / limit).

(** [page < totalPages] *)
Definition page_before (page : Z) (total_pages : js_pages) : bool :=
  match total_pages with
  | pages n => page <? n
  | pages_infinity => true
  | pages_nan => false
  end.

Record pagination := {
  currentPage : Z;
  totalPages : js_pages;
  totalItems : Z;
  hasNext : bool;
  hasPrev : bool
}.

(** [... LIMIT $2 OFFSET $3] over the rows in the order of the query: a
    negative limit or offset makes PostgreSQL raise. *)
Definition limit_offset {A} (rows : list A) (limit offset : Z)
  : option (list A) :=
  if (limit <? 0) || (offset <? 0) then None
  else Some (firstn (Z.to_nat limit) (skipn (Z.to_nat offset) rows)).

(** [SELECT cm.* ... FROM chat_messages cm JOIN users u ON cm.user_id = u.id
    WHERE cm.lobby_id = $1], oldest first: one row for each user row that
    matches. *)
Definition lobby_messages (st : DB) (lobby : uuid) : list chat_row :=
  flat_map
    (fun c =>
       if (chat_lobby_id c =? lobby)%string then
         map (fun _ => c)
             (filter (fun u => user_id u =? chat_user_id c)%string (users st))
       else [])
    (chat_messages st).

(** [SELECT COUNT( * ) FROM chat_messages WHERE lobby_id = $1] *)
Definition count_messages (st : DB) (lobby : uuid) : Z :=
  Z.of_nat
    (List.length
       (filter (fun c => chat_lobby_id c =? lobby)%string (chat_messages st))).

(** Handler of [GET /lobby/:lobbyId]; [page] and [limit] are the parsed
    query parameters. The messages come newest first from the query and are
    reversed for the answer. *)
Definition get_messages (st : DB) (user lobbyId : uuid) (page limit : Z)
  : response * option (list chat_row * pagination) :=
  (* Check if user is a member of the lobby *)
  match member_rows st lobbyId user with
  | [] => (json 403 false "You are not a member of this lobby", None)
  | _ :: _ =>
      let offset := (page - 1) * limit in
      match limit_offset (rev (lobby_messages st lobbyId)) limit offset with
      | None => (server_error "Failed to get chat messages", None)
      | Some rows =>
          let totalMessages := count_messages st lobbyId in
          let total_pages := ceil_div totalMessages limit in
          (json 200 true "",
           Some (rev rows,
                 {| currentPage := page;
                    totalPages := total_pages;
                    totalItems := totalMessages;
                    hasNext := page_before page total_pages;
                    hasPrev := page >? 1 |}))
      end
  end.

(** [router.get('/lobby/:lobbyId', authenticateToken, uuidValidation, ...)] *)
Definition get_messages_route (st : DB) (user lobbyId : uuid) (page limit : Z)
  : response * option (list chat_row * pagination) :=
  if uuidValidation [("lobbyId", lobbyId)]
  then get_messages st user lobbyId page limit
  else (validation_failed, None).

(** Handler of [DELETE /message/:messageId]. *)
Definition delete_message (st : DB) (user messageId : uuid) : DB * response :=
  (* Check if message exists and user owns it *)
  match filter (fun c => (chat_id c =? messageId)%string
                         && (chat_user_id c =? user)%string)
               (chat_messages st) with
  | [] =>
      (st, json 404 false
             "Message not found or you do not have permission to delete it")
  | _ :: _ =>
      (set_chat_messages st
         (filter (fun c => negb (chat_id c =? messageId)%string)
                 (chat_messages st)),
       json 200 true "Message deleted successfully")
  end.

(** [router.delete('/message/:messageId', authenticateToken, uuidValidation,
    ...)] *)
Definition delete_message_route (st : DB) (user messageId : uuid)
  : DB * response :=
  if uuidValidation [("messageId", messageId)]
  then delete_message st user messageId
  else (st, validation_failed).


(** ** Rooms and telemetry (services/socketService.js) *)

(** What a socket handler sends, and to whom. *)
Inductive socket_out :=
| to_socket (event : string)
| to_socket_error (msg : string)
| to_room_others (room event : string)
| nothing.

Definition room_of (lobbyId : uuid) : string := "lobby_" ++ lobbyId.

(** [socket.join(room)] and [socket.leave(room)] on the rooms of a socket. *)
Definition socket_join (rooms : list string) (room : string) : list string :=
  if existsb (String.eqb room) rooms then rooms else (rooms ++ [room])%list.

Definition socket_leave (rooms : list string) (room : string) : list string :=
  filter (fun r => negb (r =? room)%string) rooms.

(** [socket.on('join_lobby', ...)] *)
Definition on_join_lobby (st : DB) (user : uuid) (rooms : list string)
           (lobbyId : uuid) : list string * socket_out :=
  (* Verify user is member of this lobby *)
  match member_rows_status st lobbyId user "active" with
  | _ :: _ => (socket_join rooms (room_of lobbyId), to_socket "joined_lobby")
  | [] => (rooms, to_socket_error "Not authorized to join this lobby")
  end.

(** [socket.on('leave_lobby', ...)] *)
Definition on_leave_lobby (rooms : list string) (lobbyId : uuid)
  : list string * socket_out :=
  (socket_leave rooms (room_of lobbyId), to_socket "left_lobby").

(** [socket.on('location_update', ...)] *)
Definition location_update (st : DB) (user lobbyId : uuid) : socket_out :=
  match member_rows_status st lobbyId user "active" with
  | [] => nothing
  | _ :: _ => to_room_others (room_of lobbyId) "member_location_update"
  end.

(** ** The answers of the service *)


(** A table of memberships whose lobby is gone, as the foreign key forbids. *)
Definition db_orphan : DB :=
  set_lobby_members empty_db
    [{| member_lobby_id := lobby1; member_user_id := bob;
        pickup_location := "Bole"; member_status := "active" |}].


(** ** Map routes (routes/map.js, in src/unnamed/part_000) and the bounding
       box of services/mapboxService.js *)

(** The double with mantissa [m] and exponent [-e]. A numeric literal of the
    source denotes the double nearest to it, and [<=], [>=] on doubles compare
    these values exactly. *)
Definition double (m : Z) (e : positive) : Q := m # (2 ^ e).

Definition minLon : Q := double 0x107f9db22d0e56 47.   (* 32.997 *)
Definition maxLon : Q := double 0x17fccccccccccd 47.   (* 47.975 *)
Definition minLat : Q := double 0x1b2d0e56041893 51.   (* 3.397 *)
Definition maxLat : Q := double 0x1deb020c49ba5e 49.   (* 14.959 *)

Definition isValidEthiopianCoordinates (longitude latitude : Q) : bool :=
  Qle_bool minLon longitude && Qle_bool longitude maxLon
  && Qle_bool minLat latitude && Qle_bool latitude maxLat.

(** The loop over the waypoints of [POST /optimal-route] and over the
    coordinates of [POST /travel-matrix], which differ in their messages
    only: the first entry that fails a test ends the request. An entry is an
    array of numbers here; [isNaN] holds of NaN alone among them. *)
Fixpoint check_pairs (not_a_pair not_numbers outside : string)
         (l : list (list js_number)) : option response :=
  match l with
  | [] => None
  | wp :: rest =>
      match wp with
      | [lon; lat] =>
          match lon, lat with
          | Num lon, Num lat =>
              if negb (isValidEthiopianCoordinates lon lat)
              then Some (json 400 false outside)
              else check_pairs not_a_pair not_numbers outside rest
          | _, _ => Some (json 400 false not_numbers)
          end
      | _ => Some (json 400 false not_a_pair)
      end
  end.

Section Map.

(** The two calls to Mapbox: [None] when the call throws, [Some None] when
    [getOptimalRoute] finds no route. *)
Variables route matrix : Type.
Variable getOptimalRoute :
  list (list js_number) -> string -> option (option route).
Variable getTravelMatrix : list (list js_number) -> string -> option matrix.

(** Handler of [POST /optimal-route]; [waypoints] is [None] when the body
    has no array there. *)
Definition optimal_route (waypoints : option (list (list js_number)))
           (profile : option string) : response * option route :=
  match waypoints with
  | None => (json 400 false "At least 2 waypoints are required", None)
  | Some wps =>
      if (List.length wps <? 2)%nat then
        (json 400 false "At least 2 waypoints are required", None)
      else if (25 <? List.length wps)%nat then
        (json 400 false "Maximum 25 waypoints allowed", None)
      else
        (* Validate all waypoints *)
        match check_pairs
                "Each waypoint must be an array of [longitude, latitude]"
                "Invalid coordinates in waypoints"
                "All waypoints must be within Ethiopia" wps with
        | Some refusal => (refusal, None)
        | None =>
            match getOptimalRoute wps (default_to "driving" profile) with
            | None => (server_error "Failed to get optimal route", None)
            | Some None =>
                (json 404 false
                      "No optimal route found for the given waypoints", None)
            | Some (Some optimalRoute) =>
                (json 200 true "", Some optimalRoute)
            end
        end
  end.

(** Handler of [POST /travel-matrix]. *)
Definition travel_matrix (coordinates : option (list (list js_number)))
           (profile : option string) : response * option matrix :=
  match coordinates with
  | None => (json 400 false "At least 2 coordinate pairs are required", None)
  | Some coords =>
      if (List.length coords <? 2)%nat then
        (json 400 false "At least 2 coordinate pairs are required", None)
      else if (25 <? List.length coords)%nat then
        (json 400 false "Maximum 25 coordinate pairs allowed", None)
      else
        (* Validate all coordinates *)
        match check_pairs
                "Each coordinate must be an array of [longitude, latitude]"
                "Invalid coordinates"
                "All coordinates must be within Ethiopia" coords with
        | Some refusal => (refusal, None)
        | None =>
            match getTravelMatrix coords (default_to "driving" profile) with
            | None => (server_error "Failed to get travel matrix", None)
            | Some m => (json 200 true "", Some m)
            end
        end
  end.

End Map.

Arguments optimal_route {route}.
Arguments travel_matrix {matrix}.

(** The predefined locations of [GET /ethiopian-locations]. *)
Record location := {
  loc_name : string;
  latitude : Q;
  longitude : Q;
  loc_type : string
}.

Definition locations : list location :=
  let lat_8_9806 := double 0x11f6113404ea4b 49 in
  let lon_38_7578 := double 0x1360ff97247454 47 in
  let lat_9_0320 := double 0x1210624dd2f1aa 49 in
  let lon_38_7469 := double 0x135f9a6b50b0f2 47 in
  let lat_9_0157 := double 0x120809d495182b 49 in
  let lon_38_7614 := double 0x1361758e219653 47 in
  let lat_9_0084 := double 0x12044d013a92a3 49 in
  let lon_38_7034 := double 0x135a0902de00d2 47 in
  let lat_9_0054 := double 0x1202c3c9eecbfb 49 in
  let lon_38_7636 := double 0x1361bda5119ce0 47 in
  let lat_9_0120 := double 0x120624dd2f1aa0 49 in
  let lon_38_7580 := double 0x13610624dd2f1b 47 in
  [ {| loc_name := "Bole"; latitude := lat_8_9806; longitude := lon_38_7578;
       loc_type := "district" |};
    {| loc_name := "Piassa"; latitude := lat_9_0320; longitude := lon_38_7469;
       loc_type := "district" |};
    {| loc_name := "Kazanchis"; latitude := lat_9_0157;
       longitude := lon_38_7614; loc_type := "district" |};
    {| loc_name := "Merkato"; latitude := lat_9_0084; longitude := lon_38_7034;
       loc_type := "market" |};
    {| loc_name := "CMC"; latitude := lat_9_0054; longitude := lon_38_7636;
       loc_type := "district" |};
    {| loc_name := "Arat Kilo"; latitude := lat_9_0320;
       longitude := lon_38_7469; loc_type := "district" |};
    {| loc_name := "Megenagna"; latitude := lat_8_9806;
       longitude := lon_38_7578; loc_type := "district" |};
    {| loc_name := "Legehar"; latitude := lat_9_0320; longitude := lon_38_7469;
       loc_type := "district" |};
    {| loc_name := "Bole Airport"; latitude := lat_8_9806;
       longitude := lon_38_7578; loc_type := "airport" |};
    {| loc_name := "Mexico"; latitude := lat_9_0157; longitude := lon_38_7614;
       loc_type := "district" |};
    {| loc_name := "Gotera"; latitude := lat_9_0084; longitude := lon_38_7034;
       loc_type := "district" |};
    {| loc_name := "Addis Ababa University"; latitude := lat_9_0320;
       longitude := lon_38_7469; loc_type := "university" |};
    {| loc_name := "Meskel Square"; latitude := lat_9_0120;
       longitude := lon_38_7580; loc_type := "landmark" |};
    {| loc_name := "National Theatre"; latitude := lat_9_0320;
       longitude := lon_38_7469; loc_type := "landmark" |} ].

(** [String.prototype.toLowerCase] on a code unit below 256: the letters A
    to Z, and the capital letters of Latin-1 (U+00C0 to U+00DE but the
    multiplication sign U+00D7). *)
Definition lower (c : ascii) : ascii :=
  let n := nat_of_ascii c in
  if ((65 <=? n) && (n <=? 90)
      || (192 <=? n) && (n <=? 222) && negb (n =? 215))%nat
  then ascii_of_nat (n + 32) else c.

Fixpoint toLowerCase (s : string) : string :=
  match s with
  | EmptyString => EmptyString
  | String c s' => String (lower c) (toLowerCase s')
  end.

(** [s.includes(t)] *)
Fixpoint includes (s t : string) : bool :=
  prefix t s
  || match s with
     | EmptyString => false
     | String _ s' => includes s' t
     end.

(** Handler of [GET /ethiopian-locations]: the locations of the answer;
    [search] is the query parameter, a string when it is given. *)
Definition ethiopian_locations (search : option string) : list location :=
  match search with
  | None | Some EmptyString => locations
  | Some search =>
      let searchTerm := toLowerCase search in
      filter (fun location =>
                includes (toLowerCase (loc_name location)) searchTerm
                || includes (toLowerCase (loc_type location)) searchTerm)
             locations
  end.

(** A location as a waypoint, [[longitude, latitude]]. *)
Definition waypoint_of (l : location) : list js_number :=
  [Num (longitude l); Num (latitude l)].

(** A waypoint within the bounding box. *)
Definition within_ethiopia (wp : list js_number) : Prop :=
  exists lon lat,
    wp = [Num lon; Num lat]
    /\ (minLon <= lon)%Q /\ (lon <= maxLon)%Q
    /\ (minLat <= lat)%Q /\ (lat <= maxLat)%Q.

(** What the two routes ask of their list. *)
Definition acceptable (wps : list (list js_number)) : Prop :=
  (2 <= List.length wps <= 25)%nat /\ Forall within_ethiopia wps.

(** A stand-in for Mapbox that finds a route for every request. *)
Definition sample_route (wps : list (list js_number)) (_ : string)
  : option (option nat) := Some (Some (List.length wps)).

Definition sample_matrix (wps : list (list js_number)) (_ : string)
  : option nat := Some (List.length wps).


(** ** Reading rides (routes/rides.js) *)

(** [SELECT r.*, u.name as driver_name, ... FROM rides r
     JOIN users u ON r.driver_id = u.id WHERE r.id = $1] *)
Definition rides_with_driver (st : DB) (id : uuid)
  : list (ride_row * user_row) :=
  flat_map
    (fun r =>
       if (ride_id r =? id)%string then
         map (pair r)
             (filter (fun u => user_id u =? driver_id r)%string (users st))
       else [])
    (rides st).

(** A row of the participants query as the handler gets it, an object
    keyed by column name. The query selects [rp.*] and then [u.rating]: two
    columns are called [rating] and the object keeps the later one, so that
    [rating] is the rating of the user and the rating given for the ride is
    not in the row. *)
Record participant_view := {
  view_ride_id : uuid;
  view_user_id : uuid;
  view_amount_paid : js_number;
  view_pickup_location : string;
  view_dropoff_location : string;
  view_review : option string;
  view_rating : js_number
}.

Definition participant_view_of (p : participant_row) (u : user_row)
  : participant_view :=
  {| view_ride_id := part_ride_id p;
     view_user_id := part_user_id p;
     view_amount_paid := amount_paid p;
     view_pickup_location := part_pickup_location p;
     view_dropoff_location := dropoff_location p;
     view_review := review p;
     view_rating := user_rating u |}.

(** [SELECT rp.*, u.name, u.avatar_url, u.rating FROM ride_participants rp
     JOIN users u ON rp.user_id = u.id WHERE rp.ride_id = $1
     ORDER BY rp.created_at ASC]. The rows of a ride are written in one
    transaction and carry one [created_at], so that the query leaves their
    order open; the list has them in the order of insertion. *)
Definition participants_with_user (st : DB) (id : uuid)
  : list participant_view :=
  flat_map
    (fun p =>
       if (part_ride_id p =? id)%string then
         map (participant_view_of p)
             (filter (fun u => user_id u =? part_user_id p)%string (users st))
       else [])
    (ride_participants st).

(** Handler of [GET /:id]: the ride with its driver, and its participants. *)
Definition get_ride (st : DB) (user id : uuid)
  : response * option (ride_row * user_row * list participant_view) :=
  match rides_with_driver st id with
  | [] => (json 404 false "Ride not found", None)
  | ride :: _ =>
      (* Check if user was a participant *)
      match participant_rows st id user with
      | [] =>
          (json 403 false "You were not a participant in this ride", None)
      | _ :: _ =>
          (json 200 true "", Some (ride, participants_with_user st id))
      end
  end.

(** [router.get('/:id', authenticateToken, uuidValidation, ...)] *)
Definition get_ride_route (st : DB) (user id : uuid)
  : response * option (ride_row * user_row * list participant_view) :=
  if uuidValidation [("id", id)] then get_ride st user id
  else (validation_failed, None).

(** ** Reading lobbies (routes/lobbies.js, in src/unnamed/part_000) *)

(** [SELECT l.*, u.name as creator_name, ... FROM lobbies l
     JOIN users u ON l.creator_id = u.id WHERE l.id = $1] *)
Definition lobbies_with_creator (st : DB) (id : uuid)
  : list (lobby_row * user_row) :=
  flat_map
    (fun l =>
       if (lobby_id l =? id)%string then
         map (pair l)
             (filter (fun u => user_id u =? creator_id l)%string (users st))
       else [])
    (lobbies st).

(** [SELECT lm.*, u.name, u.avatar_url, u.rating FROM lobby_members lm
     JOIN users u ON lm.user_id = u.id
     WHERE lm.lobby_id = $1 AND lm.status = 'active'
     ORDER BY lm.joined_at ASC]: a member row is inserted when the user
    joins and its [joined_at] is never updated. *)
Definition members_with_user (st : DB) (id : uuid)
  : list (member_row * user_row) :=
  flat_map
    (fun m =>
       map (pair m)
           (filter (fun u => user_id u =? member_user_id m)%string (users st)))
    (members_with_status st id "active").

(** Handler of [GET /:id]: the lobby with its creator, and its members. *)
Definition get_lobby (st : DB) (id : uuid)
  : response * option (lobby_row * user_row * list (member_row * user_row)) :=
  match lobbies_with_creator st id with
  | [] => (json 404 false "Lobby not found", None)
  | lobby :: _ => (json 200 true "", Some (lobby, members_with_user st id))
  end.

(** [router.get('/:id', uuidValidation, ...)] *)
Definition get_lobby_route (st : DB) (id : uuid)
  : response * option (lobby_row * user_row * list (member_row * user_row)) :=
  if uuidValidation [("id", id)] then get_lobby st id
  else (validation_failed, None).

(** [SELECT l.*, (SELECT COUNT( * ) FROM lobby_members lm
       WHERE lm.lobby_id = l.id AND lm.status = 'active') as member_count
     FROM lobbies l WHERE l.creator_id = $1 ORDER BY l.created_at DESC],
    the answer of [GET /user/my-lobbies]: the newest lobby first. *)
Definition my_lobbies (st : DB) (user : uuid) : list (lobby_row * Z) :=
  rev (map (fun l => (l, count_members st (lobby_id l) "active"))
           (filter (fun l => creator_id l =? user)%string (lobbies st))).

(** [users.id] is a primary key. *)
Definition user_pk (st : DB) : Prop := NoDup (map user_id (users st)).

Definition sample_ride (id : uuid) : ride_row :=
  {| ride_id := id; ride_lobby_id := lobby1; driver_id := alice;
     ride_from_location := "Bole"; ride_to_location := "Piassa";
     ride_departure_time := "2030-01-01T08:00:00Z";
     total_amount := 90 # 1; distance_km := None; duration_minutes := None;
     ride_status := "completed" |}.

(** [db_ride] with the two rides on record. *)
Definition db_rides : DB :=
  set_rides db_ride [sample_ride ride0; sample_ride ride1].


(** Three users and no lobby yet. *)
Definition db_users : DB :=
  set_users empty_db [sample_user alice; sample_user bob; sample_user carol].


(** * Properties *)

(** ** Rounding to two decimals *)

Lemma cents_close (q : Q) :
  200 * Qnum q - Z.pos (Qden q) <= 2 * Z.pos (Qden q) * cents q
  <= 200 * Qnum q + Z.pos (Qden q).
Proof.
  unfold cents. destruct q as [ n d ]. cbn [Qnum Qden].
  assert (Hd : 0 < 2 * Z.pos d) by lia.
  destruct (0 <=? n) eqn:Hn.
  - pose proof (Z.mul_div_le (200 * n + Z.pos d) _ Hd).
    pose proof (Z.mul_succ_div_gt (200 * n + Z.pos d) _ Hd). lia.
  - pose proof (Z.mul_div_le (200 * - n + Z.pos d) _ Hd).
    pose proof (Z.mul_succ_div_gt (200 * - n + Z.pos d) _ Hd). lia.
Qed.


(** Rounding keeps a value between two whole numbers. *)
Lemma round2_between (a b : Z) (q : Q) :
  (inject_Z a <= q)%Q -> (q <= inject_Z b)%Q ->
  (inject_Z a <= round2 q)%Q /\ (round2 q <= inject_Z b)%Q.
Proof.
  pose proof (cents_close q) as H. unfold round2.
  destruct q as [ n d ]. unfold Qle, inject_Z. cbn [Qnum Qden] in *.
  intros Ha Hb. split; nia.
Qed.

(** ** Lists and filters *)

Lemma filter_head_In {A} (f : A -> bool) (l : list A) (x : A) (r : list A) :
  filter f l = x :: r -> In x l /\ f x = true.
Proof.
  intros H. apply filter_In. rewrite H. now left.
Qed.

Lemma filter_nil_none {A} (f : A -> bool) (l : list A) :
  filter f l = [] -> forall x, In x l -> f x = false.
Proof.
  intros H x Hx. destruct (f x) eqn:Hf; [ | reflexivity ].
  assert (Hin : In x (filter f l)) by (apply filter_In; auto).
  rewrite H in Hin. destruct Hin.
Qed.

Lemma filter_none_nil {A} (f : A -> bool) (l : list A) :
  (forall x, In x l -> f x = false) -> filter f l = [].
Proof.
  induction l as [ | a l IH ]; intros H; simpl; [ reflexivity | ].
  rewrite (H a (or_introl eq_refl)). apply IH. intros x Hx. apply H. now right.
Qed.

Lemma pk_unique (ls : list lobby_row) (l l' : lobby_row) :
  NoDup (map lobby_id ls) -> In l ls -> In l' ls ->
  lobby_id l = lobby_id l' -> l = l'.
Proof.
  induction ls as [ | a ls IH ]; simpl; intros Hnd Hl Hl' Heq; [ easy | ].
  inversion Hnd as [ | x xs Hnotin Hnd' ]; subst.
  destruct Hl as [ -> | Hl ], Hl' as [ -> | Hl' ]; auto.
  - exfalso. apply Hnotin. rewrite Heq. now apply in_map.
  - exfalso. apply Hnotin. rewrite <- Heq. now apply in_map.
Qed.

(** ** What each write keeps *)

Lemma update_lobby_status_keys (st : DB) (s : string) (id : uuid) :
  map lobby_key (lobbies (update_lobby_status st s id))
  = map lobby_key (lobbies st).
Proof.
  unfold update_lobby_status. simpl. rewrite map_map.
  apply map_ext. intros l. now destruct (lobby_id l =? id)%string.
Qed.

Lemma update_lobby_status_members (st : DB) (s : string) (id : uuid) :
  lobby_members (update_lobby_status st s id) = lobby_members st.
Proof. reflexivity. Qed.

Lemma count_members_ext (st st' : DB) (id : uuid) (s : string) :
  lobby_members st' = lobby_members st ->
  count_members st' id s = count_members st id s.
Proof.
  intros H. unfold count_members, members_with_status. now rewrite H.
Qed.

Lemma count_after_left (st : DB) (lobby user id : uuid) :
  count_members (update_member_status st "left" lobby user) id "active"
  <= count_members st id "active".
Proof.
  unfold count_members, members_with_status, update_member_status. simpl.
  apply Nat2Z.inj_le.
  induction (lobby_members st) as [ | m ms IH ]; simpl; [ lia | ].
  destruct ((member_lobby_id m =? lobby)%string
            && (member_user_id m =? user)%string); simpl.
  - rewrite andb_false_r.
    destruct ((member_lobby_id m =? id)%string
              && (member_status m =? "active")%string); simpl; lia.
  - destruct ((member_lobby_id m =? id)%string
              && (member_status m =? "active")%string); simpl; lia.
Qed.

Lemma update_member_status_lobby_ids (st : DB) (s : string)
      (lobby user : uuid) :
  map member_lobby_id (lobby_members (update_member_status st s lobby user))
  = map member_lobby_id (lobby_members st).
Proof.
  unfold update_member_status. simpl. rewrite map_map.
  apply map_ext. intros m.
  now destruct ((member_lobby_id m =? lobby)%string
                && (member_user_id m =? user)%string).
Qed.

Lemma insert_member_some (st st' : DB) (lobby user : uuid) (p : string) :
  insert_member st lobby user p = Some st' ->
  member_rows st lobby user = []
  /\ st' = set_lobby_members st
             (lobby_members st ++
                [{| member_lobby_id := lobby; member_user_id := user;
                    pickup_location := p; member_status := "active" |}]).
Proof.
  unfold insert_member. destruct (member_rows st lobby user); [ | discriminate ].
  intros H. injection H as <-. auto.
Qed.

Lemma insert_lobby_some (st st' : DB) (l : lobby_row) :
  insert_lobby st l = Some st' ->
  ~ In (lobby_id l) (map lobby_id (lobbies st))
  /\ st' = set_lobbies st (lobbies st ++ [l]).
Proof.
  unfold insert_lobby, lobbies_by_id.
  destruct (filter _ (lobbies st)) eqn:Hf; [ | discriminate ].
  intros H. injection H as <-. split; [ | reflexivity ].
  intros Hin. apply in_map_iff in Hin. destruct Hin as (l0 & Hid & Hl0).
  pose proof (filter_nil_none _ _ Hf l0 Hl0) as Hno. simpl in Hno.
  rewrite Hid, String.eqb_refl in Hno. discriminate.
Qed.

(** A write that keeps the lobbies' ids and seats and adds no active member
    keeps a sound database sound. *)
Lemma db_ok_shrink (st st' : DB) :
  map lobby_key (lobbies st') = map lobby_key (lobbies st) ->
  (forall id, count_members st' id "active" <= count_members st id "active") ->
  incl (map member_lobby_id (lobby_members st'))
       (map member_lobby_id (lobby_members st)) ->
  db_ok st -> db_ok st'.
Proof.
  intros Hkeys Hcount Hincl (Hpk & Hfk & Hcap).
  assert (Hids : map lobby_id (lobbies st') = map lobby_id (lobbies st)).
  { replace (map lobby_id (lobbies st'))
      with (map fst (map lobby_key (lobbies st')))
      by (rewrite map_map; reflexivity).
    rewrite Hkeys, map_map. reflexivity. }
  repeat split.
  - unfold lobby_pk. now rewrite Hids.
  - intros m Hm. rewrite Hids.
    assert (Hin : In (member_lobby_id m)
                     (map member_lobby_id (lobby_members st)))
      by (apply Hincl; now apply in_map).
    apply in_map_iff in Hin. destruct Hin as (m0 & Heq & Hm0).
    rewrite <- Heq. now apply Hfk.
  - intros l' Hl'.
    assert (Hk : In (lobby_key l') (map lobby_key (lobbies st)))
      by (rewrite <- Hkeys; now apply in_map).
    apply in_map_iff in Hk. destruct Hk as (l & Heq & Hl).
    injection Heq as Hid Hseats. rewrite <- Hid, <- Hseats.
    specialize (Hcount (lobby_id l)). specialize (Hcap l Hl). lia.
Qed.

(** ** Every handler keeps the database sound *)

Lemma leave_lobby_ok (st : DB) (user id : uuid) :
  db_ok st -> db_ok (fst (leave_lobby st user id)).
Proof.
  intros Hok. unfold leave_lobby.
  destruct (member_rows_status st id user "active"); [ exact Hok | ].
  assert (Hok1 : db_ok (update_member_status st "left" id user)).
  { apply (db_ok_shrink st); auto.
    - intros i. apply count_after_left.
    - rewrite update_member_status_lobby_ids. apply incl_refl. }
  destruct (lobbies_by_id _ id) as [ | lobby rest ]; [ exact Hok1 | ].
  simpl. destruct (creator_id lobby =? user)%string; [ | exact Hok1 ].
  apply (db_ok_shrink (update_member_status st "left" id user)); auto.
  - apply update_lobby_status_keys.
  - intros i. rewrite (count_members_ext _ _ i "active"
                         (update_lobby_status_members _ _ _)). lia.
  - apply incl_refl.
Qed.

Lemma update_lobby_status_ok (st : DB) (s : string) (id : uuid) :
  db_ok st -> db_ok (update_lobby_status st s id).
Proof.
  intros Hok. apply (db_ok_shrink st); auto.
  - apply update_lobby_status_keys.
  - intros i. rewrite (count_members_ext _ _ i "active"
                         (update_lobby_status_members _ _ _)). lia.
  - apply incl_refl.
Qed.

Lemma update_status_ok (st : DB) (user id : uuid) (status : string) :
  db_ok st -> db_ok (fst (update_status st user id status)).
Proof.
  intros Hok. unfold update_status.
  destruct (negb _); [ exact Hok | ].
  destruct (lobbies_by_id st id) as [ | lobby rest ]; [ exact Hok | ].
  destruct (negb _); [ exact Hok | ].
  now apply update_lobby_status_ok.
Qed.

Lemma lobby_status_update_ok (st : DB) (user id : uuid) (status : string) :
  db_ok st -> db_ok (fst (lobby_status_update st user id status)).
Proof.
  intros Hok. unfold lobby_status_update.
  destruct (filter _ (lobbies st)); [ exact Hok | ].
  destruct (varchar 20 status); [ | exact Hok ].
  now apply update_lobby_status_ok.
Qed.

(** A handler that touches neither lobbies nor memberships. *)
Lemma db_ok_same (st st' : DB) :
  lobbies st' = lobbies st -> lobby_members st' = lobby_members st ->
  db_ok st -> db_ok st'.
Proof.
  intros Hl Hm Hok. apply (db_ok_shrink st); auto.
  - now rewrite Hl.
  - intros i. rewrite (count_members_ext _ _ i "active" Hm). lia.
  - rewrite Hm. apply incl_refl.
Qed.

Lemma insert_chat_same (st st' : DB) (new_id lobby user : uuid)
      (msg : option string) (kind : string) :
  insert_chat st new_id lobby user msg kind = Some st' ->
  lobbies st' = lobbies st /\ lobby_members st' = lobby_members st.
Proof.
  unfold insert_chat. destruct msg; [ | discriminate ].
  destruct (_ && _); [ | discriminate ].
  intros H. injection H as <-. auto.
Qed.

Lemma send_message_ok (st : DB) (user new_id lobbyId : uuid)
      (b : message_body) :
  db_ok st -> db_ok (fst (send_message st user new_id lobbyId b)).
Proof.
  intros Hok. unfold send_message.
  destruct (member_rows_status st lobbyId user "active"); [ exact Hok | ].
  destruct (insert_chat _ _ _ _ _ _) eqn:Hins; [ | exact Hok ].
  apply insert_chat_same in Hins. destruct Hins. now apply (db_ok_same st).
Qed.

Lemma send_message_rest_ok (st : DB) (user new_id lobbyId : uuid)
      (b : message_body) :
  db_ok st -> db_ok (fst (send_message_rest st user new_id lobbyId b)).
Proof.
  intros Hok. unfold send_message_rest.
  destruct (member_rows_status st lobbyId user "active"); [ exact Hok | ].
  destruct (insert_chat _ _ _ _ _ _) eqn:Hins; [ | exact Hok ].
  apply insert_chat_same in Hins. destruct Hins.
  destruct (filter _ (users d)); now apply (db_ok_same st).
Qed.

Lemma rate_participant_ok (st : DB) (user id : uuid) (b : rate_body) :
  db_ok st -> db_ok (fst (rate_participant st user id b)).
Proof.
  intros Hok. unfold rate_participant.
  destruct (participantUserId b) as [ ratee | ]; [ | exact Hok ].
  destruct (body_rating b) as [ r | ]; [ | exact Hok ].
  destruct (_ || _); [ exact Hok | ].
  destruct (_ || _); [ exact Hok | ].
  destruct (participant_rows st id user); [ exact Hok | ].
  destruct (participant_rows st id ratee); [ exact Hok | ].
  destruct (filter _ _); [ | exact Hok ].
  now apply (db_ok_same st).
Qed.

(** The handler of this repository never gets to its transaction:
    [query.pool] is undefined, the call throws and the outer catch answers
    500. *)
Lemma complete_ride_no_write (st : DB) (user new_id lobbyId : uuid)
      (b : complete_body) :
  fst (complete_ride st user new_id lobbyId b) = st
  /\ success (snd (complete_ride st user new_id lobbyId b)) = false.
Proof.
  unfold complete_ride, complete_ride_with, query_pool.
  destruct (filter _ (lobbies st)); [ now split | ].
  destruct (members_with_status st lobbyId "active"); now split.
Qed.

(** Nor does a request get to the handler: the route's segment is
    [lobbyId], the validator checks [id]. *)
Lemma post_complete_rejected (st : DB) (user new_id lobbyId : uuid)
      (b : complete_body) :
  post_complete st user new_id lobbyId b = (st, validation_failed).
Proof. reflexivity. Qed.

Lemma post_message_rejected (st : DB) (user new_id lobbyId : uuid)
      (b : message_body) :
  post_message st user new_id lobbyId b = (st, validation_failed).
Proof. reflexivity. Qed.

Lemma count_after_insert (st : DB) (lobby user : uuid) (p : string)
      (i : uuid) :
  count_members
    (set_lobby_members st
       (lobby_members st ++
          [{| member_lobby_id := lobby; member_user_id := user;
              pickup_location := p; member_status := "active" |}]))
    i "active"
  = count_members st i "active" + (if (lobby =? i)%string then 1 else 0).
Proof.
  unfold count_members, members_with_status. simpl.
  rewrite filter_app, length_app. simpl.
  destruct (lobby =? i)%string; simpl; lia.
Qed.

Lemma count_zero_of_fresh (st : DB) (id : uuid) (s : string) :
  members_fk st -> ~ In id (map lobby_id (lobbies st)) ->
  count_members st id s = 0.
Proof.
  intros Hfk Hfresh. unfold count_members, members_with_status.
  rewrite filter_none_nil; [ reflexivity | ].
  intros m Hm. destruct (member_lobby_id m =? id)%string eqn:Heq;
    [ | reflexivity ].
  apply String.eqb_eq in Heq. exfalso. apply Hfresh. rewrite <- Heq.
  now apply Hfk.
Qed.

(** A new membership fits when the lobby still has a free seat. *)
Lemma insert_member_ok (st : DB) (l : lobby_row) (user : uuid) (p : string) :
  db_ok st -> In l (lobbies st) ->
  count_members st (lobby_id l) "active" < available_seats l ->
  db_ok (set_lobby_members st
           (lobby_members st ++
              [{| member_lobby_id := lobby_id l; member_user_id := user;
                  pickup_location := p; member_status := "active" |}])).
Proof.
  intros (Hpk & Hfk & Hcap) Hl Hfree. repeat split.
  - exact Hpk.
  - intros m Hm. simpl in Hm. apply in_app_or in Hm.
    destruct Hm as [ Hm | [ <- | [] ] ]; simpl.
    + now apply Hfk.
    + now apply in_map.
  - intros l' Hl'. simpl in Hl'. rewrite count_after_insert.
    destruct (lobby_id l =? lobby_id l')%string eqn:Heq.
    + apply String.eqb_eq in Heq.
      rewrite <- (pk_unique _ _ _ Hpk Hl Hl' Heq). lia.
    + specialize (Hcap l' Hl'). lia.
Qed.

(** A new lobby row with a fresh id fits. *)
Lemma insert_lobby_ok (st : DB) (l : lobby_row) :
  db_ok st -> ~ In (lobby_id l) (map lobby_id (lobbies st)) ->
  0 <= available_seats l ->
  db_ok (set_lobbies st (lobbies st ++ [l])).
Proof.
  intros (Hpk & Hfk & Hcap) Hfresh Hseats. repeat split.
  - unfold lobby_pk. simpl. rewrite map_app. simpl.
    apply NoDup_app; [ exact Hpk | repeat constructor; intros [] | ].
    intros a Ha [ <- | [] ]. now apply Hfresh.
  - intros m Hm. simpl in *. rewrite map_app. apply in_or_app. left.
    now apply Hfk.
  - intros l' Hl'. simpl in Hl'. apply in_app_or in Hl'.
    replace (count_members (set_lobbies st (lobbies st ++ [l]))
               (lobby_id l') "active")
      with (count_members st (lobby_id l') "active") by reflexivity.
    destruct Hl' as [ Hl' | [ <- | [] ] ].
    + now apply Hcap.
    + rewrite (count_zero_of_fresh st (lobby_id l) "active" Hfk Hfresh).
      exact Hseats.
Qed.

Lemma join_lobby_ok (st : DB) (user id : uuid) (pickup : option string) :
  db_ok st -> db_ok (fst (join_lobby st user id pickup)).
Proof.
  intros Hok. unfold join_lobby.
  destruct (lobbies_by_id_status st id "active") as [ | lobby rest ] eqn:Hl;
    [ exact Hok | ].
  destruct (0 <? _)%nat; [ exact Hok | ].
  destruct (count_members st id "active" >=? available_seats lobby)
    eqn:Hfull; [ exact Hok | ].
  destruct (insert_member _ _ _ _) eqn:Hins; [ | exact Hok ].
  apply insert_member_some in Hins. destruct Hins as [ _ -> ]. simpl.
  apply filter_head_In in Hl. destruct Hl as [ Hin Hcond ].
  apply andb_true_iff in Hcond. destruct Hcond as [ Hid _ ].
  apply String.eqb_eq in Hid. subst id.
  rewrite Z.geb_leb in Hfull. apply Z.leb_gt in Hfull.
  now apply insert_member_ok.
Qed.

Section Service.

Variable geocodeAddress : string -> option (option (Q * Q)).
Variable isISO8601 : string -> bool.

Lemma validated_seats (b b' : create_body) :
  createLobbyValidation isISO8601 b = Some b' ->
  1 <= availableSeats b' <= 15.
Proof.
  unfold createLobbyValidation.
  destruct (_ && _) eqn:Hc; [ | discriminate ].
  intros H. injection H as <-. simpl.
  repeat (apply andb_true_iff in Hc; destruct Hc as [ Hc ? ]).
  split; now apply Z.leb_le.
Qed.

Lemma create_lobby_ok (st : DB) (user new_id : uuid) (b : create_body) :
  db_ok st -> 1 <= availableSeats b ->
  db_ok (fst (create_lobby geocodeAddress st user new_id b)).
Proof.
  intros Hok Hseats. unfold create_lobby.
  destruct (geocodeAddress (fromLocation b)) as [ fc | ]; [ | exact Hok ].
  destruct (geocodeAddress (toLocation b)) as [ tc | ]; [ | exact Hok ].
  destruct fc as [ fc | ], tc as [ tc | ]; try exact Hok.
  destruct (insert_lobby _ _) as [ st1 | ] eqn:Hins; [ | exact Hok ].
  apply insert_lobby_some in Hins. simpl in Hins.
  destruct Hins as [ Hfresh -> ].
  match goal with
  | |- context [ set_lobbies st (lobbies st ++ [?l]) ] => set (lobby := l)
  end.
  assert (Hok1 : db_ok (set_lobbies st (lobbies st ++ [lobby])))
    by (apply insert_lobby_ok; simpl; auto; lia).
  destruct (insert_member _ _ _ _) as [ st2 | ] eqn:Hm; [ | exact Hok1 ].
  apply insert_member_some in Hm. destruct Hm as [ _ -> ]. simpl fst.
  apply (insert_member_ok (set_lobbies st (lobbies st ++ [lobby])) lobby);
    auto.
  - simpl. apply in_or_app. right. now left.
  - replace (count_members (set_lobbies st (lobbies st ++ [lobby]))
               (lobby_id lobby) "active")
      with (count_members st new_id "active") by reflexivity.
    destruct Hok as (_ & Hfk & _).
    rewrite (count_zero_of_fresh st new_id "active" Hfk Hfresh).
    simpl. lia.
Qed.

Lemma serve_ok (st : DB) (r : request) :
  db_ok st -> db_ok (serve geocodeAddress isISO8601 st r).
Proof.
  intros Hok. destruct r; simpl.
  - unfold post_lobby.
    destruct (createLobbyValidation isISO8601 b) as [ b' | ] eqn:Hv;
      [ | exact Hok ].
    apply create_lobby_ok; auto. now apply validated_seats in Hv.
  - unfold post_join. destruct (uuidValidation _); [ | exact Hok ].
    now apply join_lobby_ok.
  - unfold post_leave. destruct (uuidValidation _); [ | exact Hok ].
    now apply leave_lobby_ok.
  - unfold put_status. destruct (uuidValidation _); [ | exact Hok ].
    now apply update_status_ok.
  - exact Hok.
  - unfold post_rate. destruct (uuidValidation _); [ | exact Hok ].
    now apply rate_participant_ok.
  - exact Hok.
  - now apply send_message_ok.
  - now apply lobby_status_update_ok.
Qed.

Lemma run_ok (rs : list request) (st : DB) :
  db_ok st -> db_ok (run geocodeAddress isISO8601 st rs).
Proof.
  revert st. induction rs as [ | r rs IH ]; intros st Hok; simpl.
  - exact Hok.
  - apply IH. now apply serve_ok.
Qed.

End Service.

Lemma empty_db_ok : db_ok empty_db.
Proof.
  repeat split.
  - constructor.
  - intros m [].
  - intros l [].
Qed.

(** ** Capacity (C3) *)

(** The lobby row a join looks at is the lobby row with that id. *)
Lemma active_lobby_is_the_lobby (st : DB) (id : uuid) (l lobby : lobby_row)
      (rest : list lobby_row) :
  lobby_pk st -> In l (lobbies st) -> lobby_id l = id ->
  lobbies_by_id_status st id "active" = lobby :: rest -> lobby = l.
Proof.
  intros Hpk Hl Hid Hf. apply filter_head_In in Hf. destruct Hf as [ Hin Hc ].
  apply andb_true_iff in Hc. destruct Hc as [ Hc _ ].
  apply String.eqb_eq in Hc. apply (pk_unique (lobbies st)); auto. congruence.
Qed.

Lemma lobbies_by_id_status_some (st : DB) (id : uuid) (l : lobby_row) :
  In l (lobbies st) -> lobby_id l = id -> lobby_status l = "active" ->
  lobbies_by_id_status st id "active" <> [].
Proof.
  intros Hl Hid Hs Hnil.
  pose proof (filter_nil_none _ _ Hnil l Hl) as Hno. simpl in Hno.
  rewrite Hid, Hs, String.eqb_refl in Hno. discriminate.
Qed.

(** A join on a lobby without a free seat changes nothing, whatever the
    answer is. *)
Lemma join_lobby_full (st : DB) (user id : uuid) (pickup : option string)
      (l : lobby_row) :
  lobby_pk st -> In l (lobbies st) -> lobby_id l = id ->
  available_seats l <= count_members st id "active" ->
  fst (join_lobby st user id pickup) = st
  /\ success (snd (join_lobby st user id pickup)) = false
  /\ (lobby_status l = "active" -> member_rows st id user = [] ->
      snd (join_lobby st user id pickup) = json 400 false "Lobby is full").
Proof.
  intros Hpk Hl Hid Hfull. unfold join_lobby.
  destruct (lobbies_by_id_status st id "active") as [ | lobby rest ] eqn:Hf.
  - repeat split; auto. intros Hs _. exfalso.
    now apply (lobbies_by_id_status_some st id l).
  - rewrite (active_lobby_is_the_lobby st id l lobby rest Hpk Hl Hid Hf).
    assert (Hge : (count_members st id "active" >=? available_seats l) = true)
      by (rewrite Z.geb_leb; now apply Z.leb_le).
    rewrite Hge.
    destruct (0 <? List.length (member_rows st id user))%nat eqn:Hm;
      repeat split; auto.
    intros _ Hnone. rewrite Hnone in Hm. discriminate.
Qed.

(** C3, as amended. From the empty database, whatever requests are served:
    no lobby has more active members than seats; and a join on a lobby whose
    active members already fill the seats changes nothing and is refused,
    with "Lobby is full" when the id is well formed, the lobby is active and
    the user has no membership row for it (those checks come first). *)
Theorem capacity_never_exceeded
        (geocodeAddress : string -> option (option (Q * Q)))
        (isISO8601 : string -> bool) (rs : list request)
        (user id : uuid) (pickup : option string) (l : lobby_row) :
  let st := run geocodeAddress isISO8601 empty_db rs in
  capacity_ok st
  /\ (In l (lobbies st) -> lobby_id l = id ->
      available_seats l <= count_members st id "active" ->
      fst (post_join st user id pickup) = st
      /\ success (snd (post_join st user id pickup)) = false
      /\ (isUUID id = true -> lobby_status l = "active" ->
          member_rows st id user = [] ->
          snd (post_join st user id pickup)
          = json 400 false "Lobby is full")).
Proof.
  intros st.
  assert (Hok : db_ok st) by (apply run_ok, empty_db_ok).
  split; [ apply Hok | ].
  intros Hl Hid Hfull. unfold post_join, uuidValidation. simpl.
  destruct (isUUID id) eqn:Hu.
  - destruct (join_lobby_full st user id pickup l) as (H1 & H2 & H3); auto.
    apply Hok.
  - repeat split; auto. discriminate.
Qed.

Lemma capacity_never_exceeded_witness :
  capacity_ok db_open
  /\ post_join db_open carol lobby1 None
     = (db_open, json 400 false "Lobby is full").
Proof.
  destruct (capacity_never_exceeded geocode_found any_time
              [CreateLobby alice lobby1 (bole_piassa 2);
               JoinLobby bob lobby1 None]
              carol lobby1 None (alice_lobby 2 "active")) as (Hcap & Hjoin).
  split; [ exact Hcap | ].
  assert (Hin : In (alice_lobby 2 "active") (lobbies db_open))
    by (vm_compute; now left).
  assert (Hfull : available_seats (alice_lobby 2 "active")
                  <= count_members db_open lobby1 "active")
    by (vm_compute; discriminate).
  destruct (Hjoin Hin eq_refl Hfull) as (Hst & _ & Hmsg).
  apply injective_projections; [ exact Hst | apply Hmsg; reflexivity ].
Defined.

(** C3 as stated fails: the lobby is full and the join is refused, but not
    with "Lobby is full", when the user already has a membership row. *)
Lemma join_full_lobby_by_member :
  count_members db_open lobby1 "active" = 2
  /\ map available_seats (lobbies_by_id db_open lobby1) = [2]
  /\ snd (post_join db_open bob lobby1 None)
     = json 400 false "You are already a member of this lobby"
  /\ snd (post_join db_open bob lobby1 None)
     <> json 400 false "Lobby is full".
Proof.
  repeat split; try reflexivity. vm_compute. discriminate.
Qed.

(** ** Membership rows are never removed (C9) *)

Lemma membership_kept_same (st st' : DB) :
  lobby_members st' = lobby_members st -> membership_kept st st'.
Proof.
  intros H. unfold membership_kept. rewrite H. apply incl_refl.
Qed.

Lemma membership_kept_trans (st1 st2 st3 : DB) :
  membership_kept st1 st2 -> membership_kept st2 st3 ->
  membership_kept st1 st3.
Proof. unfold membership_kept. intros H12 H23. eapply incl_tran; eauto. Qed.

Lemma update_member_status_kept (st : DB) (s : string) (lobby user : uuid) :
  membership_kept st (update_member_status st s lobby user).
Proof.
  unfold membership_kept.
  replace (map member_pair
             (lobby_members (update_member_status st s lobby user)))
    with (map member_pair (lobby_members st)); [ apply incl_refl | ].
  unfold update_member_status. simpl. rewrite map_map.
  apply map_ext. intros m.
  now destruct ((member_lobby_id m =? lobby)%string
                && (member_user_id m =? user)%string).
Qed.

Lemma insert_member_kept (st st' : DB) (lobby user : uuid) (p : string) :
  insert_member st lobby user p = Some st' -> membership_kept st st'.
Proof.
  intros H. apply insert_member_some in H. destruct H as [ _ -> ].
  unfold membership_kept. simpl. rewrite map_app. now apply incl_appl, incl_refl.
Qed.

Lemma join_lobby_kept (st : DB) (user id : uuid) (pickup : option string) :
  membership_kept st (fst (join_lobby st user id pickup)).
Proof.
  unfold join_lobby.
  destruct (lobbies_by_id_status st id "active");
    [ now apply membership_kept_same | ].
  destruct (0 <? _)%nat; [ now apply membership_kept_same | ].
  destruct (_ >=? _); [ now apply membership_kept_same | ].
  destruct (insert_member _ _ _ _) eqn:Hins;
    [ | now apply membership_kept_same ].
  now apply insert_member_kept in Hins.
Qed.

Lemma leave_lobby_kept (st : DB) (user id : uuid) :
  membership_kept st (fst (leave_lobby st user id)).
Proof.
  unfold leave_lobby.
  destruct (member_rows_status st id user "active");
    [ now apply membership_kept_same | ].
  destruct (lobbies_by_id _ id) as [ | lobby rest ];
    [ apply update_member_status_kept | ].
  simpl. destruct (creator_id lobby =? user)%string;
    apply update_member_status_kept.
Qed.

Lemma update_status_kept (st : DB) (user id : uuid) (status : string) :
  membership_kept st (fst (update_status st user id status)).
Proof.
  apply membership_kept_same. unfold update_status.
  destruct (negb _); [ reflexivity | ].
  destruct (lobbies_by_id st id); [ reflexivity | ].
  now destruct (negb _).
Qed.

Lemma lobby_status_update_kept (st : DB) (user id : uuid) (status : string) :
  membership_kept st (fst (lobby_status_update st user id status)).
Proof.
  apply membership_kept_same. unfold lobby_status_update.
  destruct (filter _ (lobbies st)); [ reflexivity | ].
  now destruct (varchar 20 status).
Qed.

Lemma send_message_kept (st : DB) (user new_id lobbyId : uuid)
      (b : message_body) :
  membership_kept st (fst (send_message st user new_id lobbyId b)).
Proof.
  apply membership_kept_same. unfold send_message.
  destruct (member_rows_status st lobbyId user "active"); [ reflexivity | ].
  destruct (insert_chat _ _ _ _ _ _) eqn:Hins; [ | reflexivity ].
  now apply insert_chat_same in Hins.
Qed.

Lemma rate_participant_kept (st : DB) (user id : uuid) (b : rate_body) :
  membership_kept st (fst (rate_participant st user id b)).
Proof.
  apply membership_kept_same. unfold rate_participant.
  destruct (participantUserId b) as [ ratee | ]; [ | reflexivity ].
  destruct (body_rating b) as [ r | ]; [ | reflexivity ].
  destruct (_ || _); [ reflexivity | ].
  destruct (_ || _); [ reflexivity | ].
  destruct (participant_rows st id user); [ reflexivity | ].
  destruct (participant_rows st id ratee); [ reflexivity | ].
  now destruct (filter _ _).
Qed.

Section Membership.

Variable geocodeAddress : string -> option (option (Q * Q)).
Variable isISO8601 : string -> bool.

Lemma create_lobby_kept (st : DB) (user new_id : uuid) (b : create_body) :
  membership_kept st (fst (create_lobby geocodeAddress st user new_id b)).
Proof.
  unfold create_lobby.
  destruct (geocodeAddress (fromLocation b)) as [ fc | ];
    [ | now apply membership_kept_same ].
  destruct (geocodeAddress (toLocation b)) as [ tc | ];
    [ | now apply membership_kept_same ].
  destruct fc as [ fc | ], tc as [ tc | ]; try now apply membership_kept_same.
  destruct (insert_lobby _ _) as [ st1 | ] eqn:Hins;
    [ | now apply membership_kept_same ].
  apply insert_lobby_some in Hins. destruct Hins as [ _ -> ].
  destruct (insert_member _ _ _ _) as [ st2 | ] eqn:Hm;
    [ | now apply membership_kept_same ].
  apply insert_member_kept in Hm. simpl.
  eapply membership_kept_trans; [ | exact Hm ].
  now apply membership_kept_same.
Qed.

Lemma serve_kept (st : DB) (r : request) :
  membership_kept st (serve geocodeAddress isISO8601 st r).
Proof.
  destruct r; simpl.
  - unfold post_lobby. destruct (createLobbyValidation isISO8601 b);
      [ apply create_lobby_kept | now apply membership_kept_same ].
  - unfold post_join. destruct (uuidValidation _);
      [ apply join_lobby_kept | now apply membership_kept_same ].
  - unfold post_leave. destruct (uuidValidation _);
      [ apply leave_lobby_kept | now apply membership_kept_same ].
  - unfold put_status. destruct (uuidValidation _);
      [ apply update_status_kept | now apply membership_kept_same ].
  - now apply membership_kept_same.
  - unfold post_rate. destruct (uuidValidation _);
      [ apply rate_participant_kept | now apply membership_kept_same ].
  - now apply membership_kept_same.
  - apply send_message_kept.
  - apply lobby_status_update_kept.
Qed.

Lemma run_kept (rs : list request) (st : DB) :
  membership_kept st (run geocodeAddress isISO8601 st rs).
Proof.
  revert st. induction rs as [ | r rs IH ]; intros st; simpl.
  - now apply membership_kept_same.
  - eapply membership_kept_trans; [ apply serve_kept | apply IH ].
Qed.

End Membership.

Lemma member_rows_pair (st : DB) (id user : uuid) :
  member_rows st id user <> []
  <-> In (id, user) (map member_pair (lobby_members st)).
Proof.
  unfold member_rows. split.
  - intros Hne.
    destruct (filter _ (lobby_members st)) as [ | m ms ] eqn:Hf; [ easy | ].
    apply filter_head_In in Hf. destruct Hf as [ Hin Hc ].
    apply andb_true_iff in Hc. destruct Hc as [ H1 H2 ].
    apply String.eqb_eq in H1, H2. apply in_map_iff. exists m.
    unfold member_pair. now rewrite H1, H2.
  - intros Hin Hnil. apply in_map_iff in Hin. destruct Hin as (m & Hp & Hm).
    pose proof (filter_nil_none _ _ Hnil m Hm) as Hno. simpl in Hno.
    injection Hp as H1 H2. rewrite H1, H2, !String.eqb_refl in Hno.
    discriminate.
Qed.

(** With a membership row for the pair, whatever its status, a join changes
    nothing. *)
Lemma join_lobby_member (st : DB) (user id : uuid) (pickup : option string) :
  member_rows st id user <> [] ->
  fst (join_lobby st user id pickup) = st
  /\ success (snd (join_lobby st user id pickup)) = false
  /\ (lobbies_by_id_status st id "active" <> [] ->
      snd (join_lobby st user id pickup)
      = json 400 false "You are already a member of this lobby")
  /\ (lobbies_by_id_status st id "active" = [] ->
      snd (join_lobby st user id pickup)
      = json 404 false "Lobby not found or not active").
Proof.
  intros Hrow. unfold join_lobby.
  destruct (lobbies_by_id_status st id "active"); [ now repeat split | ].
  destruct (member_rows st id user) as [ | m ms ]; [ easy | ].
  now repeat split.
Qed.

(** C9, as amended. Once a membership row exists for a lobby and a user,
    with any status, every later join of that user to that lobby changes
    nothing and is refused, whatever requests were served in between. For a
    well-formed id the answer is the already-a-member error when the lobby
    is active, and the not-found-or-not-active error (404) when it is not:
    the check of the lobby comes first. An id that is not well formed is
    answered by the validation. *)
Theorem member_row_blocks_join
        (geocodeAddress : string -> option (option (Q * Q)))
        (isISO8601 : string -> bool) (st : DB) (rs : list request)
        (user id : uuid) (pickup : option string) :
  member_rows st id user <> [] ->
  let st' := run geocodeAddress isISO8601 st rs in
  member_rows st' id user <> []
  /\ fst (post_join st' user id pickup) = st'
  /\ success (snd (post_join st' user id pickup)) = false
  /\ (isUUID id = true -> lobbies_by_id_status st' id "active" <> [] ->
      snd (post_join st' user id pickup)
      = json 400 false "You are already a member of this lobby")
  /\ (isUUID id = true -> lobbies_by_id_status st' id "active" = [] ->
      snd (post_join st' user id pickup)
      = json 404 false "Lobby not found or not active")
  /\ (isUUID id = false ->
      snd (post_join st' user id pickup) = validation_failed).
Proof.
  intros Hrow st'.
  assert (Hrow' : member_rows st' id user <> []).
  { apply member_rows_pair. apply (run_kept geocodeAddress isISO8601 rs st).
    now apply member_rows_pair. }
  split; [ exact Hrow' | ].
  unfold post_join, uuidValidation. simpl.
  destruct (isUUID id).
  - destruct (join_lobby_member st' user id pickup Hrow')
      as (H1 & H2 & H3 & H4).
    repeat split; auto. discriminate.
  - repeat split; auto; discriminate.
Qed.

Lemma member_row_blocks_join_witness :
  map member_status (member_rows db_open lobby1 bob) = ["active"]
  /\ map member_status (member_rows db_bob_left lobby1 bob) = ["left"]
  /\ post_join db_bob_left bob lobby1 None
     = (db_bob_left,
        json 400 false "You are already a member of this lobby")
  /\ post_join db_creator_left alice lobby1 None
     = (db_creator_left, json 404 false "Lobby not found or not active").
Proof.
  split; [ reflexivity | ]. split; [ reflexivity | ].
  assert (Hbob : member_rows db_open lobby1 bob <> [])
    by (vm_compute; discriminate).
  assert (Halice : member_rows db_open lobby1 alice <> [])
    by (vm_compute; discriminate).
  destruct (member_row_blocks_join geocode_found any_time db_open
              [LeaveLobby bob lobby1] bob lobby1 None Hbob)
    as (_ & Hst & _ & Hmember & _).
  destruct (member_row_blocks_join geocode_found any_time db_open
              [LeaveLobby alice lobby1] alice lobby1 None Halice)
    as (_ & Hst' & _ & _ & Hcancelled & _).
  split; apply injective_projections;
    [ exact Hst | | exact Hst' | ].
  - apply Hmember; [ reflexivity | vm_compute; discriminate ].
  - apply Hcancelled; reflexivity.
Defined.

(** C9 as stated fails: Alice created the lobby and left it, which cancelled
    it; her row is still there, and her join is refused as a join to a lobby
    that is not active, not as a join of a member. *)
Lemma join_cancelled_lobby_by_member :
  map member_status (member_rows db_creator_left lobby1 alice) = ["left"]
  /\ post_join db_creator_left alice lobby1 None
     = (db_creator_left, json 404 false "Lobby not found or not active")
  /\ snd (post_join db_creator_left alice lobby1 None)
     <> json 400 false "You are already a member of this lobby".
Proof.
  repeat split; try reflexivity. vm_compute. discriminate.
Qed.

(** ** Status updates (C2) *)

Lemma lobbies_by_id_head (st : DB) (id : uuid) (l : lobby_row) :
  lobby_pk st -> In l (lobbies st) -> lobby_id l = id ->
  exists rest, lobbies_by_id st id = l :: rest.
Proof.
  intros Hpk Hl Hid. unfold lobbies_by_id.
  destruct (filter _ (lobbies st)) as [ | l0 rest ] eqn:Hf.
  - pose proof (filter_nil_none _ _ Hf l Hl) as Hno. simpl in Hno.
    rewrite Hid, String.eqb_refl in Hno. discriminate.
  - exists rest. f_equal. apply filter_head_In in Hf. destruct Hf as [ Hin Hc ].
    apply String.eqb_eq in Hc. apply (pk_unique (lobbies st)); auto.
    congruence.
Qed.


Lemma lobbies_with_status_In (ls : list lobby_row) (id : uuid) (s : string)
      (l : lobby_row) :
  In l ls -> lobby_id l = id -> In (with_status l s) (lobbies_with_status ls id s).
Proof.
  intros Hl Hid. unfold lobbies_with_status. apply in_map_iff. exists l.
  apply String.eqb_eq in Hid. now rewrite Hid.
Qed.




(** The socket event does not even look at the name: a target the route
    would refuse is written. *)
Example socket_writes_unknown_status :
  isIn ["active"; "started"; "completed"; "cancelled"] "paused" = false
  /\ snd (put_status db_open alice lobby1 "paused")
     = json 400 false "Invalid status"
  /\ map lobby_status
         (lobbies (fst (lobby_status_update db_open alice lobby1 "paused")))
     = ["paused"].
Proof. repeat split. Qed.

(** ** Leaving a lobby (C7) *)

(** C7. When a user leaves a lobby (the request succeeds), the membership
    rows of that user in that lobby are marked left and no other row
    changes. If the user is the lobby's creator the lobby is cancelled in
    the same request: its row stays, with the status cancelled and its
    other columns as they were, and the other lobbies are not touched.
    Otherwise no lobby row changes. *)
Theorem creator_leave_cancels (st : DB) (user id : uuid) (l : lobby_row) :
  lobby_pk st -> In l (lobbies st) -> lobby_id l = id ->
  success (snd (post_leave st user id)) = true ->
  let st' := fst (post_leave st user id) in
  lobby_members st'
  = map (fun m => if (member_lobby_id m =? id)%string
                     && (member_user_id m =? user)%string
                  then marked_left m else m)
        (lobby_members st)
  /\ (creator_id l = user ->
      lobbies st' = lobbies_with_status (lobbies st) id "cancelled"
      /\ In (with_status l "cancelled") (lobbies st'))
  /\ (creator_id l <> user -> lobbies st' = lobbies st).
Proof.
  intros Hpk Hl Hid. unfold post_leave.
  destruct (uuidValidation _); [ | discriminate ].
  unfold leave_lobby.
  destruct (member_rows_status st id user "active"); [ discriminate | ].
  replace (lobbies_by_id (update_member_status st "left" id user) id)
    with (lobbies_by_id st id) by reflexivity.
  destruct (lobbies_by_id_head st id l Hpk Hl Hid) as [ rest -> ].
  intros _. simpl fst.
  destruct (creator_id l =? user)%string eqn:Hc.
  - split; [ reflexivity | split ].
    + intros _. split; [ reflexivity | ].
      now apply (lobbies_with_status_In (lobbies st) id "cancelled" l).
    + intros Hne. apply String.eqb_eq in Hc. contradiction.
  - split; [ reflexivity | split ]; [ | reflexivity ].
    intros Heq. apply String.eqb_neq in Hc. contradiction.
Qed.

Lemma creator_leave_cancels_witness :
  let st' := fst (post_leave db_open alice lobby1) in
  map member_status (lobby_members st') = ["left"; "active"]
  /\ lobbies st' = [alice_lobby 2 "cancelled"].
Proof.
  assert (Hpk : lobby_pk db_open) by (apply run_ok, empty_db_ok).
  assert (Hin : In (alice_lobby 2 "active") (lobbies db_open))
    by (vm_compute; now left).
  destruct (creator_leave_cancels db_open alice lobby1
              (alice_lobby 2 "active") Hpk Hin eq_refl eq_refl)
    as (Hmembers & Hcancel & _).
  destruct (Hcancel eq_refl) as [ Hlobbies _ ].
  split; [ rewrite Hmembers; reflexivity | rewrite Hlobbies; reflexivity ].
Defined.

(** The other case: Bob is not the creator, the lobby stays active. *)
Example member_leave_keeps_lobby :
  post_leave db_open bob lobby1
  = (db_bob_left, json 200 true "Successfully left lobby")
  /\ lobbies db_bob_left = lobbies db_open
  /\ map member_status (lobby_members db_bob_left) = ["active"; "left"].
Proof. repeat split. Qed.

(** ** Ratings (C6, C10) *)

Lemma ratings_of_In (user : uuid) (ps : list participant_row)
      (p : participant_row) (r : Z) :
  In p ps -> rating p = Some r -> part_user_id p = user ->
  In r (ratings_of user ps).
Proof.
  induction ps as [ | a ps IH ]; simpl; intros Hin Hr Hu; [ easy | ].
  destruct Hin as [ -> | Hin ].
  - rewrite Hr, Hu, String.eqb_refl. now left.
  - destruct (rating a); [ destruct (part_user_id a =? user)%string | ];
      try right; now apply IH.
Qed.

(** The ratings of a user are the non-null ratings of that user's rows. *)
Lemma ratings_of_spec (user : uuid) (ps : list participant_row) (r : Z) :
  In r (ratings_of user ps)
  <-> exists p, In p ps /\ part_user_id p = user /\ rating p = Some r.
Proof.
  split.
  - induction ps as [ | a ps IH ]; simpl; [ easy | ].
    destruct (rating a) as [ ra | ] eqn:Hra.
    + destruct (part_user_id a =? user)%string eqn:Hu.
      * intros [ <- | Hin ].
        -- exists a. apply String.eqb_eq in Hu. auto.
        -- destruct (IH Hin) as (p & Hp & H). exists p. auto.
      * intros Hin. destruct (IH Hin) as (p & Hp & H). exists p. auto.
    + intros Hin. destruct (IH Hin) as (p & Hp & H). exists p. auto.
  - intros (p & Hp & Hu & Hr). now apply (ratings_of_In user ps p).
Qed.

Lemma update_rating_other (st : DB) (r : Z) (rev : option string)
      (ride ratee user : uuid) :
  user <> ratee ->
  ratings_of user (ride_participants (update_rating st r rev ride ratee))
  = ratings_of user (ride_participants st).
Proof.
  intros Hne. unfold update_rating. simpl.
  induction (ride_participants st) as [ | p ps IH ]; simpl; [ reflexivity | ].
  rewrite IH.
  destruct ((part_ride_id p =? ride)%string
            && (part_user_id p =? ratee)%string) eqn:Hm; [ | reflexivity ].
  apply andb_true_iff in Hm. destruct Hm as [ _ Hu ].
  apply String.eqb_eq in Hu. simpl.
  assert (Hno : (part_user_id p =? user)%string = false)
    by (apply String.eqb_neq; congruence).
  rewrite Hno. now destruct (rating p).
Qed.

Lemma update_rating_included (st : DB) (r : Z) (rev : option string)
      (ride ratee : uuid) :
  participant_rows st ride ratee <> [] ->
  In r (ratings_of ratee
          (ride_participants (update_rating st r rev ride ratee))).
Proof.
  unfold participant_rows. intros Hne.
  destruct (filter _ (ride_participants st)) as [ | p ps ] eqn:Hf; [ easy | ].
  apply filter_head_In in Hf. destruct Hf as [ Hin Hm ].
  apply ratings_of_spec. unfold update_rating. simpl.
  eexists. split; [ apply in_map_iff; exists p; split; [ | exact Hin ] | ].
  - rewrite Hm. reflexivity.
  - simpl. apply andb_true_iff in Hm. destruct Hm as [ _ Hu ].
    apply String.eqb_eq in Hu. auto.
Qed.

Lemma avg_rating_mean (st : DB) (user : uuid) :
  ratings_of user (ride_participants st) <> [] ->
  avg_rating st user = Num (mean (ratings_of user (ride_participants st))).
Proof.
  unfold avg_rating. now destruct (ratings_of user (ride_participants st)).
Qed.

(** What a successful rating does, step by step. *)
Lemma rate_participant_success (st : DB) (user id : uuid) (b : rate_body) :
  success (snd (rate_participant st user id b)) = true ->
  exists ratee r,
    participantUserId b = Some ratee /\ body_rating b = Some r
    /\ participant_rows st id ratee <> []
    /\ fst (rate_participant st user id b)
       = update_user_rating
           (update_rating st r (body_review b) id ratee)
           (avg_rating (update_rating st r (body_review b) id ratee) ratee)
           ratee.
Proof.
  unfold rate_participant.
  destruct (participantUserId b) as [ ratee | ]; [ | discriminate ].
  destruct (body_rating b) as [ r | ]; [ | discriminate ].
  destruct (_ || _); [ discriminate | ].
  destruct (_ || _); [ discriminate | ].
  destruct (participant_rows st id user); [ discriminate | ].
  destruct (participant_rows st id ratee) eqn:Hp; [ discriminate | ].
  destruct (filter _ _); [ | discriminate ].
  intros _. exists ratee, r.
  split; [ reflexivity | split; [ reflexivity | split ] ];
    [ rewrite Hp; discriminate | reflexivity ].
Qed.

(** The two writes of a rating: the ratee ends up with the mean, to two
    decimals. *)
Lemma rated_user_mean (st : DB) (r : Z) (rev : option string)
      (id ratee : uuid) :
  participant_rows st id ratee <> [] ->
  let st1 := update_rating st r rev id ratee in
  let st2 := update_user_rating st1 (avg_rating st1 ratee) ratee in
  In r (ratings_of ratee (ride_participants st2))
  /\ users st2
     = users_with_rating (users st) ratee
         (Num (round2 (mean (ratings_of ratee (ride_participants st2)))))
  /\ ride_participants st2
     = participants_rated (ride_participants st) id ratee r rev.
Proof.
  intros Hrow st1 st2.
  assert (Hin : In r (ratings_of ratee (ride_participants st1)))
    by now apply update_rating_included.
  assert (Hne : ratings_of ratee (ride_participants st1) <> [])
    by (intros E; rewrite E in Hin; destruct Hin).
  split; [ exact Hin | ]. split; [ | reflexivity ].
  unfold st2, update_user_rating.
  rewrite (avg_rating_mean st1 ratee Hne). reflexivity.
Qed.

Lemma users_with_rating_In (us : list user_row) (id : uuid) (a : js_number)
      (u : user_row) :
  In u (users_with_rating us id a) ->
  (user_id u = id /\ user_rating u = a)
  \/ (user_id u <> id /\ In u us).
Proof.
  unfold users_with_rating. intros Hin.
  apply in_map_iff in Hin. destruct Hin as (u0 & Heq & Hu0).
  cbv beta in Heq. destruct (user_id u0 =? id)%string eqn:Hid.
  - left. apply String.eqb_eq in Hid. subst u. auto.
  - right. apply String.eqb_neq in Hid. subst u. auto.
Qed.

(** C6, as amended. After a successful rate call the new rating is among
    the ratee's non-null ratings; the rows of the ride for the ratee carry
    it, with the review, and no other participant row has changed; every
    user row of the ratee carries the arithmetic mean of all the ratee's
    ratings, over all rides, rounded to two decimals as the column
    DECIMAL(3,2) stores it, and no other user row has changed; and if every
    rated user carried the rounded mean of their ratings before the call,
    every rated user does after it. *)
Theorem rating_is_rounded_mean (st : DB) (user id : uuid) (b : rate_body) :
  success (snd (post_rate st user id b)) = true ->
  let st' := fst (post_rate st user id b) in
  exists ratee r,
    participantUserId b = Some ratee /\ body_rating b = Some r
    /\ In r (ratings_of ratee (ride_participants st'))
    /\ ride_participants st'
       = participants_rated (ride_participants st) id ratee r (body_review b)
    /\ users st'
       = users_with_rating (users st) ratee
           (Num (round2 (mean (ratings_of ratee (ride_participants st')))))
    /\ (rating_ok st -> rating_ok st').
Proof.
  unfold post_rate. destruct (uuidValidation _); [ | discriminate ].
  intros Hs. destruct (rate_participant_success st user id b Hs)
    as (ratee & r & Hb1 & Hb2 & Hrow & ->).
  simpl. exists ratee, r.
  destruct (rated_user_mean st r (body_review b) id ratee Hrow)
    as (Hin & Husers & Hrows).
  set (st1 := update_rating st r (body_review b) id ratee) in *.
  set (st2 := update_user_rating st1 (avg_rating st1 ratee) ratee) in *.
  split; [ exact Hb1 | ]. split; [ exact Hb2 | ]. split; [ exact Hin | ].
  split; [ exact Hrows | ]. split; [ exact Husers | ].
  intros Hok u Hu Hrated. rewrite Husers in Hu.
  destruct (users_with_rating_In _ _ _ _ Hu) as [ [ Hid Hr ] | [ Hid Hu0 ] ].
  - rewrite Hr, Hid. simpl. reflexivity.
  - change (ride_participants st2) with (ride_participants st1) in *.
    unfold st1 in Hrated |- *.
    rewrite update_rating_other in Hrated |- * by exact Hid.
    now apply Hok.
Qed.

Lemma rating_is_rounded_mean_witness :
  map user_rating (users db_ride) = [Num (5 # 1)%Q; Num (5 # 1)%Q]
  /\ map user_rating
         (users (fst (post_rate db_ride bob ride1 bob_rates_alice)))
     = [Num (450 # 100)%Q; Num (5 # 1)%Q]
  /\ map rating
         (ride_participants (fst (post_rate db_ride bob ride1 bob_rates_alice)))
     = [Some 5; Some 4; None].
Proof.
  split; [ reflexivity | ].
  destruct (rating_is_rounded_mean db_ride bob ride1 bob_rates_alice eq_refl)
    as (ratee & r & Hb1 & Hb2 & _ & Hrows & Husers & _).
  injection Hb1 as <-. injection Hb2 as <-.
  rewrite Husers, Hrows. split; reflexivity.
Defined.

(** C6 as stated fails: Alice has four and five stars from two rides and
    gets four more from Bob for a third. The mean of her ratings is 13/3;
    the column holds two decimals and her stored rating is 4.33. *)
Lemma rating_rounded_to_cents :
  let st' := fst (post_rate db_ride_4 bob ride1 bob_rates_alice) in
  success (snd (post_rate db_ride_4 bob ride1 bob_rates_alice)) = true
  /\ ratings_of alice (ride_participants st') = [4; 5; 4]
  /\ (mean [4; 5; 4]%Z == 13 # 3)%Q
  /\ map user_rating (users st') = [Num (433 # 100)%Q; Num (5 # 1)%Q]
  /\ ~ (433 # 100 == mean [4; 5; 4]%Z)%Q.
Proof.
  repeat split; try reflexivity. intros H. vm_compute in H. discriminate H.
Qed.

(** C10. The handler never compares the rater with the ratee: a participant
    of a ride whose row has no rating yet rates themselves with any score
    from 1 to 5. The call succeeds, the score is on their row and among
    their ratings, and every user row of theirs takes the mean of their
    ratings, the new one included, to two decimals: a row whose rating was
    another number has changed. *)
Theorem self_rating_accepted (st : DB) (user id : uuid) (r : Z)
        (rev : option string) :
  isUUID id = true -> user <> "" -> 1 <= r <= 5 ->
  participant_rows st id user <> [] ->
  (forall p, In p (participant_rows st id user) -> rating p = None) ->
  let b := {| participantUserId := Some user; body_rating := Some r;
              body_review := rev |} in
  let st' := fst (post_rate st user id b) in
  snd (post_rate st user id b) = json 200 true "Rating submitted successfully"
  /\ In r (ratings_of user (ride_participants st'))
  /\ ride_participants st'
     = participants_rated (ride_participants st) id user r rev
  /\ users st'
     = users_with_rating (users st) user
         (Num (round2 (mean (ratings_of user (ride_participants st')))))
  /\ (forall u, In u (users st) -> user_id u = user ->
                user_rating u
                <> Num (round2 (mean (ratings_of user
                                                 (ride_participants st')))) ->
                users st' <> users st).
Proof.
  intros Hu Hne Hr Hrow Hnull b st'. subst st' b.
  unfold post_rate, uuidValidation. simpl param. simpl field_string.
  rewrite Hu. unfold rate_participant. simpl participantUserId.
  simpl body_rating. simpl body_review. cbv iota beta.
  assert (H1 : ((user =? "")%string || (r =? 0)) = false).
  { apply orb_false_iff. split; [ now apply String.eqb_neq | ].
    apply Z.eqb_neq. lia. }
  assert (H2 : ((r <? 1) || (r >? 5)) = false).
  { apply orb_false_iff. split; [ apply Z.ltb_ge; lia | ].
    rewrite Z.gtb_ltb. apply Z.ltb_ge. lia. }
  rewrite H1, H2.
  assert (H3 : filter (fun p => is_some (rating p))
                      (participant_rows st id user) = []).
  { apply filter_none_nil. intros p Hp. now rewrite (Hnull p Hp). }
  rewrite H3.
  destruct (participant_rows st id user) as [ | p ps ] eqn:Hp; [ easy | ].
  simpl fst. simpl snd. split; [ reflexivity | ].
  assert (Hrow' : participant_rows st id user <> [])
    by (rewrite Hp; discriminate).
  destruct (rated_user_mean st r rev id user Hrow') as (Hin & Husers & Hrows).
  split; [ exact Hin | ]. split; [ exact Hrows | ]. split; [ exact Husers | ].
  intros u Hin_u Hid Hdiff Hsame. rewrite Hsame in Husers.
  set (a := Num (round2 (mean (ratings_of user (ride_participants _))))) in *.
  clearbody a. clear - Husers Hin_u Hid Hdiff.
  induction (users st) as [ | u0 us IH ]; [ destruct Hin_u | ].
  unfold users_with_rating in Husers. simpl in Husers.
  injection Husers as Hhead Htail.
  destruct Hin_u as [ -> | Hin_u ]; [ | now apply IH ].
  apply String.eqb_eq in Hid. rewrite Hid in Hhead.
  apply Hdiff. rewrite Hhead. reflexivity.
Qed.

Lemma self_rating_accepted_witness :
  map user_rating (users db_ride) = [Num (5 # 1)%Q; Num (5 # 1)%Q]
  /\ snd (post_rate db_ride alice ride1 self_rating)
     = json 200 true "Rating submitted successfully"
  /\ map user_rating (users (fst (post_rate db_ride alice ride1 self_rating)))
     = [Num (300 # 100)%Q; Num (5 # 1)%Q]
  /\ users (fst (post_rate db_ride alice ride1 self_rating)) <> users db_ride.
Proof.
  split; [ reflexivity | ].
  assert (Hrow : participant_rows db_ride ride1 alice <> [])
    by (vm_compute; discriminate).
  assert (Hnull : forall p, In p (participant_rows db_ride ride1 alice) ->
                            rating p = None).
  { intros p Hp. vm_compute in Hp. destruct Hp as [ <- | [] ]. reflexivity. }
  assert (Hne : alice <> "") by (vm_compute; discriminate).
  assert (Hr : 1 <= 1 <= 5) by lia.
  destruct (self_rating_accepted db_ride alice ride1 1 None eq_refl Hne Hr
              Hrow Hnull) as (Hresp & _ & _ & Husers & Hchanged).
  split; [ exact Hresp | ]. split.
  - unfold self_rating. rewrite Husers. reflexivity.
  - apply (Hchanged (sample_user alice)); [ now left | reflexivity | ].
    vm_compute. discriminate.
Defined.

(** ** Chat messages (C8) *)

(** What the REST route lets through is a message of 1 to 1000 characters
    with a known kind. *)
Lemma sendMessageValidation_bounds (b b' : message_body) :
  sendMessageValidation b = Some b' ->
  exists text,
    body_message b' = Some text
    /\ isLength 1 1000 text = true
    /\ isIn ["text"; "image"; "location"]
            (default_to "text" (messageType b')) = true.
Proof.
  unfold sendMessageValidation.
  destruct (isLength 1 1000 (trim (field_string (body_message b)))) eqn:Hlen;
    [ | discriminate ].
  destruct (messageType b) as [ k | ] eqn:Hk; cbn [andb].
  - destruct (isIn ["text"; "image"; "location"] k) eqn:Hin;
      [ | discriminate ].
    intros H. injection H as <-. simpl. eauto.
  - intros H. injection H as <-. simpl. eauto.
Qed.

(** The rows the REST handler stores after that validation are as the data
    model wants them. *)
Lemma send_message_rest_validated (st : DB) (user new_id lobbyId : uuid)
      (b b' : message_body) :
  sendMessageValidation b = Some b' ->
  forallb chat_row_ok (chat_messages st) = true ->
  forallb chat_row_ok
          (chat_messages (fst (send_message_rest st user new_id lobbyId b')))
  = true.
Proof.
  intros Hv Hold. apply sendMessageValidation_bounds in Hv.
  destruct Hv as (text & Hm & Hlen & Hkind).
  unfold send_message_rest.
  destruct (member_rows_status st lobbyId user "active"); [ exact Hold | ].
  unfold insert_chat. rewrite Hm.
  destruct (_ && _); [ | exact Hold ].
  assert (Hnew : forallb chat_row_ok
                   (chat_messages st ++
                      [{| chat_id := new_id; chat_lobby_id := lobbyId;
                          chat_user_id := user; chat_message := text;
                          message_type :=
                            default_to "text" (messageType b') |}]) = true).
  { rewrite forallb_app, Hold. cbn [forallb andb]. unfold chat_row_ok.
    cbn [chat_message message_type]. now rewrite Hlen, Hkind. }
  now destruct (filter _ _).
Qed.

(** The socket handler stores what it is sent. *)
Lemma send_message_stores (st : DB) (user new_id lobbyId : uuid)
      (text kind : string) :
  member_rows_status st lobbyId user "active" <> [] ->
  varchar 20 kind = true ->
  existsb (fun c => chat_id c =? new_id)%string (chat_messages st) = false ->
  chat_messages
    (fst (send_message st user new_id lobbyId
            {| body_message := Some text; messageType := Some kind |}))
  = (chat_messages st ++
       [{| chat_id := new_id; chat_lobby_id := lobbyId; chat_user_id := user;
           chat_message := text; message_type := kind |}])%list.
Proof.
  intros Hm Hk Hfresh. unfold send_message, insert_chat. simpl.
  destruct (member_rows_status st lobbyId user "active"); [ easy | ].
  now rewrite Hk, Hfresh.
Qed.

(** C8, at the failing input: Bob, an active member, sends an empty message
    of kind 'video' over the socket; the row is stored as sent and broadcast,
    though the data model allows neither the payload nor the kind. The REST
    route, which validates both, answers 400 to every request. *)
Theorem socket_message_unvalidated :
  send_message db_open bob msg1 lobby1 empty_video
  = (set_chat_messages db_open
       [{| chat_id := msg1; chat_lobby_id := lobby1; chat_user_id := bob;
           chat_message := ""; message_type := "video" |}],
     emit_room ("lobby_" ++ lobby1) "new_message")
  /\ forallb chat_row_ok
             (chat_messages
                (fst (send_message db_open bob msg1 lobby1 empty_video)))
     = false
  /\ sendMessageValidation empty_video = None
  /\ post_message db_open bob msg1 lobby1
       {| body_message := Some "hello"; messageType := Some "text" |}
     = (db_open, validation_failed).
Proof. repeat split. Qed.

(** ** Finalization (C1, C4, C5) *)

(** *** What the handler does with [query.pool]

    In this repository [query.pool] is undefined and no call gets to BEGIN;
    these lemmas are about the handler as a function of what [query.pool]
    evaluates to. *)

Lemma add_participants_effect (c : client) (ride : ride_row)
      (lobby : lobby_row) (a : js_number) (members : list member_row) :
  forall (k : nat) (st : DB) (k' : nat) (st' : DB),
    add_participants c k st ride lobby a members = Some (k', st') ->
    ride_participants st'
    = (ride_participants st
       ++ map (fun m => participant_for ride m a lobby) members)%list
    /\ users st'
       = fold_left bump_total_rides (map member_user_id members) (users st)
    /\ lobbies st' = lobbies st
    /\ lobby_members st' = lobby_members st
    /\ rides st' = rides st
    /\ chat_messages st' = chat_messages st.
Proof.
  induction members as [ | m ms IH ]; intros k st k' st' H; simpl in H.
  - injection H as _ <-. simpl. rewrite app_nil_r. auto 6.
  - destruct (c k); [ discriminate | ].
    unfold insert_participant in H.
    destruct (is_some (decimal_number 10 a)); [ | discriminate ].
    destruct (c (S k)); [ discriminate | ].
    unfold increment_total_rides in H. cbn [users set_ride_participants] in H.
    destruct (forallb _ (users st)); [ | discriminate ].
    apply IH in H. simpl in H.
    destruct H as (Hp & Hu & Hl & Hm & Hr & Hc).
    rewrite Hp, Hu, Hl, Hm, Hr, Hc. rewrite <- app_assoc. simpl. auto 6.
Qed.

(** All or nothing: a call that does not succeed leaves the database as it
    was. *)
Lemma complete_ride_with_failure (pool : option client) (st : DB)
      (user new_id lobbyId : uuid) (b : complete_body) :
  success (snd (complete_ride_with pool st user new_id lobbyId b)) = false ->
  fst (complete_ride_with pool st user new_id lobbyId b) = st.
Proof.
  unfold complete_ride_with.
  destruct (filter _ (lobbies st)); [ reflexivity | ].
  destruct (members_with_status st lobbyId "active"); [ reflexivity | ].
  destruct pool as [ c | ]; [ | reflexivity ].
  destruct (complete_transaction _ _ _ _ _ _ _ _ _); [ discriminate | ].
  reflexivity.
Qed.

(** A call that succeeds was made by the creator on a started lobby with
    active members, on a connection, and has made every write: the ride
    row, one participant row per active member with the even split, to the
    cent, as amount, the counters, the lobby status. *)
Lemma complete_ride_with_success (pool : option client) (st : DB)
      (user new_id lobbyId : uuid) (b : complete_body) :
  success (snd (complete_ride_with pool st user new_id lobbyId b)) = true ->
  let st' := fst (complete_ride_with pool st user new_id lobbyId b) in
  let members := members_with_status st lobbyId "active" in
  exists lobby amount,
    pool <> None
    /\ In lobby (lobbies st) /\ lobby_id lobby = lobbyId
    /\ creator_id lobby = user /\ lobby_status lobby = "started"
    /\ members <> [] /\ totalAmount b = Some amount
    /\ rides st'
       = (rides st ++ [ride_for new_id lobbyId user lobby amount b])%list
    /\ ride_participants st'
       = (ride_participants st
          ++ map (fun m =>
                    participant_for
                      (ride_for new_id lobbyId user lobby amount b) m
                      (Num (amount
                            / inject_Z (Z.of_nat (List.length members))))
                      lobby)
                 members)%list
    /\ users st'
       = fold_left bump_total_rides (map member_user_id members) (users st)
    /\ lobbies st' = lobbies_with_status (lobbies st) lobbyId "completed"
    /\ lobby_members st' = lobby_members st.
Proof.
  unfold complete_ride_with.
  destruct (filter _ (lobbies st)) as [ | lobby rest ] eqn:Hl;
    [ discriminate | ].
  destruct (members_with_status st lobbyId "active") as [ | m ms ] eqn:Hm;
    [ discriminate | ].
  destruct pool as [ c | ]; [ | discriminate ].
  destruct (complete_transaction _ _ _ _ _ _ _ _ _) as [ st' | ] eqn:Ht;
    [ | discriminate ].
  intros _. simpl fst.
  apply filter_head_In in Hl. destruct Hl as [ Hin Hc ].
  apply andb_true_iff in Hc. destruct Hc as [ Hc Hs ].
  apply andb_true_iff in Hc. destruct Hc as [ Hid Hcr ].
  apply String.eqb_eq in Hid, Hcr, Hs.
  unfold complete_transaction, insert_ride, js_div in Ht.
  destruct (c O); [ discriminate | ].
  destruct (totalAmount b) as [ amount | ]; [ | discriminate ].
  destruct (negb _); [ discriminate | ].
  destruct (existsb _ (rides st)); [ discriminate | ].
  destruct (add_participants _ _ _ _ _ _ _) as [ [ k st2 ] | ] eqn:Ha;
    [ | discriminate ].
  destruct (c k); [ discriminate | ].
  destruct (c (S k)); [ discriminate | ].
  injection Ht as <-.
  apply add_participants_effect in Ha. simpl in Ha.
  destruct Ha as (Hp & Hu & Hlob & Hmem & Hr & _).
  exists lobby, amount. unfold update_lobby_status. simpl.
  rewrite Hp, Hu, Hlob, Hmem, Hr.
  repeat (split; [ first [ assumption | reflexivity | discriminate ] | ]).
  reflexivity.
Qed.




(** With or without a connection, the handler keeps the database sound. *)
Lemma complete_ride_with_ok (pool : option client) (st : DB)
      (user new_id lobbyId : uuid) (b : complete_body) :
  db_ok st -> db_ok (fst (complete_ride_with pool st user new_id lobbyId b)).
Proof.
  intros Hok.
  destruct (success (snd (complete_ride_with pool st user new_id lobbyId b)))
    eqn:Hs.
  - destruct (complete_ride_with_success pool st user new_id lobbyId b Hs)
      as (lobby & amount & _ & _ & _ & _ & _ & _ & _ & _ & _ & _ & Hl & Hm).
    apply (db_ok_shrink (update_lobby_status st "completed" lobbyId)).
    + now rewrite Hl.
    + intros i. rewrite (count_members_ext _ _ i "active" Hm).
      rewrite (count_members_ext _ _ i "active"
                 (update_lobby_status_members _ _ _)). lia.
    + rewrite Hm. apply incl_refl.
    + now apply update_lobby_status_ok.
  - now rewrite complete_ride_with_failure.
Qed.

(** On a connection without faults the first scenario of the specification
    runs as told: one ride, two participant rows of 45.00 each, the lobby
    completed. *)
Example complete_on_healthy_connection :
  let st' := fst (complete_ride_with (Some healthy) db_started alice ride1
                    lobby1 fare_90) in
  map ride_lobby_id (rides st') = [lobby1]
  /\ map part_user_id (ride_participants st') = [alice; bob]
  /\ map amount_paid (ride_participants st')
     = [Num (4500 # 100)%Q; Num (4500 # 100)%Q]
  /\ map lobby_status (lobbies st') = ["completed"].
Proof. repeat split. Qed.

(** On a connection, nothing but the status keeps a lobby from being
    completed again: set back to started by its creator, which the status
    route allows, it yields a second ride. *)
Example restarted_lobby_completed_twice :
  let st1 := fst (complete_ride_with (Some healthy) db_started alice ride1
                    lobby1 fare_90) in
  let st2 := fst (put_status st1 alice lobby1 "started") in
  let st3 := fst (complete_ride_with (Some healthy) st2 alice ride0 lobby1
                    fare_90) in
  map ride_lobby_id (rides st1) = [lobby1]
  /\ map ride_lobby_id (rides st3) = [lobby1; lobby1]
  /\ List.length (ride_participants st3) = 4%nat.
Proof. repeat split. Qed.

(** *** The requests of the service and the rides *)

Ltac split_cases :=
  repeat match goal with
         | |- context [ match ?x with _ => _ end ] => destruct x eqn:?
         | H : insert_lobby _ _ = Some _ |- _ =>
             apply insert_lobby_some in H; destruct H as [ _ -> ]
         | H : insert_member _ _ _ _ = Some _ |- _ =>
             apply insert_member_some in H; destruct H as [ _ -> ]
         | H : insert_chat _ _ _ _ _ _ = Some _ |- _ =>
             unfold insert_chat in H
         | H : match ?x with _ => _ end = Some _ |- _ =>
             destruct x; [ | discriminate H ]
         | H : (if ?x then _ else _) = Some _ |- _ =>
             destruct x; [ | discriminate H ]
         | H : Some _ = Some _ |- _ => injection H as <-
         end; simpl; try reflexivity.




(** C1, on the code as it is. No request to complete a ride succeeds or
    writes anything: past its two checks the handler evaluates
    [query.pool.connect()], which throws before BEGIN, and the catch answers
    500; as the route is declared, the request does not even reach the
    handler (400). At the failing input Alice created the lobby, it is
    started and has two active members, and the answer is that 500. *)
Theorem complete_ride_fails_at_connect (st : DB) (user new_id lobbyId : uuid)
        (b : complete_body) :
  (fst (complete_ride st user new_id lobbyId b) = st
   /\ success (snd (complete_ride st user new_id lobbyId b)) = false
   /\ post_complete st user new_id lobbyId b
      = (st, json 400 false "Validation failed"))
  /\ (map creator_id (lobbies db_started) = [alice]
      /\ map lobby_status (lobbies db_started) = ["started"]
      /\ count_members db_started lobby1 "active" = 2
      /\ complete_ride db_started alice ride1 lobby1 fare_90
         = (db_started, json 500 false "Failed to complete ride")).
Proof.
  split; [ | repeat split ].
  destruct (complete_ride_no_write st user new_id lobbyId b) as [ Hst Hno ].
  split; [ exact Hst | split; [ exact Hno | ] ].
  apply post_complete_rejected.
Qed.





(** * Further properties of the code *)

(** ** Authentication *)

Lemma split_space_word (t : string) :
  no_space t = true -> split_space t = [t].
Proof.
  induction t as [ | c r IH ]; simpl; intros H; [ reflexivity | ].
  apply andb_true_iff in H. destruct H as [ Hc Hr ].
  apply negb_true_iff in Hc. rewrite Hc, (IH Hr). reflexivity.
Qed.

Lemma split_space_scheme (w t : string) :
  no_space w = true ->
  split_space (w ++ String " " t) = w :: split_space t.
Proof.
  induction w as [ | c r IH ]; simpl; intros H; [ reflexivity | ].
  apply andb_true_iff in H. destruct H as [ Hc Hr ].
  apply negb_true_iff in Hc. rewrite Hc, (IH Hr). reflexivity.
Qed.

Lemma bearer_token_second_word (w t : string) :
  no_space w = true -> no_space t = true -> t <> "" ->
  bearer_token (Some (w ++ String " " t)) = Some t.
Proof.
  intros Hw Ht Hne. unfold bearer_token.
  assert (Hh : (w ++ String " " t =? "")%string = false)
    by (apply String.eqb_neq; destruct w; discriminate).
  rewrite Hh, (split_space_scheme w t Hw), (split_space_word t Ht). simpl.
  apply String.eqb_neq in Hne. now rewrite Hne.
Qed.

Lemma active_users_head (st : DB) (id : uuid) (u : user_row)
      (rest : list user_row) :
  active_users st id = u :: rest ->
  In u (users st) /\ user_id u = id /\ user_is_active u = true.
Proof.
  intros H. apply filter_head_In in H. destruct H as [ Hin Hc ].
  apply andb_true_iff in Hc. destruct Hc as [ Hid Ha ].
  apply String.eqb_eq in Hid. auto.
Qed.

(** X1. [authenticateToken] lets a request through only as a user row that
    is in the table and active, named by the payload of the second word of
    the Authorization header; a missing header and a header of one word are
    answered 401 "Access token required". *)
Theorem authenticated_user_is_active (jwt_verify : string -> jwt_result)
        (st : DB) (header : option string) :
  (forall u, authenticateToken jwt_verify st header = auth_next u ->
             In u (users st) /\ user_is_active u = true
             /\ exists h token,
                 header = Some h
                 /\ nth_error (split_space h) 1 = Some token
                 /\ jwt_verify token = jwt_payload (user_id u))
  /\ (forall h, header = Some h -> no_space h = true ->
                authenticateToken jwt_verify st header
                = auth_reject (json 401 false "Access token required"))
  /\ (header = None ->
      authenticateToken jwt_verify st header
      = auth_reject (json 401 false "Access token required")).
Proof.
  repeat apply conj.
  - intros u. unfold authenticateToken, bearer_token.
    destruct header as [ h | ]; [ | discriminate ].
    destruct (h =? "")%string; [ discriminate | ].
    destruct (nth_error (split_space h) 1) as [ t | ] eqn:Hn;
      [ | discriminate ].
    destruct (t =? "")%string; [ discriminate | ].
    destruct (jwt_verify t) as [ userId | | | ] eqn:Hv; try discriminate.
    destruct (active_users st userId) as [ | u0 rest ] eqn:Ha;
      [ discriminate | ].
    intros H. injection H as <-.
    destruct (active_users_head st userId u0 rest Ha) as (Hin & Hid & Hact).
    repeat split; auto. exists h, t. rewrite Hid. auto.
  - intros h -> Hh. unfold authenticateToken, bearer_token.
    rewrite (split_space_word h Hh). simpl. now destruct (h =? "")%string.
  - intros ->. reflexivity.
Qed.

Lemma authenticated_user_is_active_witness :
  authenticateToken sample_verify db_ride (Some "Bearer alice-token")
  = auth_next (sample_user alice)
  /\ In (sample_user alice) (users db_ride)
  /\ user_is_active (sample_user alice) = true
  /\ authenticateToken sample_verify db_ride (Some "alice-token")
     = auth_reject (json 401 false "Access token required").
Proof.
  destruct (authenticated_user_is_active sample_verify db_ride
              (Some "Bearer alice-token")) as (Hok & _ & _).
  destruct (Hok (sample_user alice) eq_refl) as (Hin & Hact & _).
  destruct (authenticated_user_is_active sample_verify db_ride
              (Some "alice-token")) as (_ & Hword & _).
  repeat split; auto.
Defined.

(** X2. The three authenticators agree, and the scheme is not looked at:
    for a token without spaces, a header made of any word, a space and the
    token passes [authenticateToken] as the user that [socketAuth] accepts
    for the bare token, and [optionalAuth] attaches that user or none. *)
Theorem authenticators_agree (jwt_verify : string -> jwt_result) (st : DB)
        (scheme token : string) :
  no_space scheme = true -> no_space token = true -> token <> "" ->
  let header := Some (scheme ++ String " " token) in
  (forall u, authenticateToken jwt_verify st header = auth_next u
             <-> socketAuth jwt_verify st (Some token) = socket_accept u)
  /\ optionalAuth jwt_verify st header
     = match socketAuth jwt_verify st (Some token) with
       | socket_accept u => Some u
       | socket_refuse _ => None
       end.
Proof.
  intros Hs Ht Hne header. subst header.
  unfold authenticateToken, optionalAuth, socketAuth.
  rewrite (bearer_token_second_word scheme token Hs Ht Hne).
  apply String.eqb_neq in Hne. rewrite Hne.
  destruct (jwt_verify token) as [ userId | | | ];
    try (split; [ intros u; split; discriminate | reflexivity ]).
  destruct (active_users st userId) as [ | u0 rest ].
  - split; [ intros u; split; discriminate | reflexivity ].
  - split; [ | reflexivity ].
    intros u; split; intros H; injection H as <-; reflexivity.
Qed.

Lemma authenticators_agree_witness :
  authenticateToken sample_verify db_ride (Some "Token bob-token")
  = auth_next (sample_user bob)
  /\ socketAuth sample_verify db_ride (Some "bob-token")
     = socket_accept (sample_user bob)
  /\ optionalAuth sample_verify db_ride (Some "Token bob-token")
     = Some (sample_user bob).
Proof.
  assert (Hne : "bob-token" <> "") by discriminate.
  destruct (authenticators_agree sample_verify db_ride "Token" "bob-token"
              eq_refl eq_refl Hne) as [ Hiff Hopt ].
  assert (Hsock : socketAuth sample_verify db_ride (Some "bob-token")
                  = socket_accept (sample_user bob)) by reflexivity.
  split; [ apply Hiff; exact Hsock | ].
  split; [ exact Hsock | ]. exact Hopt.
Defined.

Lemma deactivated_rows (us : list user_row) (user : uuid) (u : user_row) :
  In u (map (fun u =>
               if (user_id u =? user)%string then
                 {| user_id := user_id u;
                    user_total_rides := user_total_rides u;
                    user_rating := user_rating u;
                    user_is_active := false |}
               else u) us) ->
  user_id u = user -> user_is_active u = false.
Proof.
  intros Hin Hid. apply in_map_iff in Hin. destruct Hin as (u0 & Heq & _).
  cbv beta in Heq. destruct (user_id u0 =? user)%string eqn:H0.
  - now subst u.
  - subst u. apply String.eqb_neq in H0. contradiction.
Qed.

(** X3. After [DELETE /account] no header authenticates as that user any
    more, over HTTP or over a socket handshake, and the user's sessions are
    gone; the lobbies and the memberships, the user's own included, are
    left as they were. *)
Theorem deleted_account_locked_out (jwt_verify : string -> jwt_result)
        (st : DB) (sessions : list session_row) (user : uuid) :
  let st' := fst (fst (delete_account st sessions user)) in
  let sessions' := snd (fst (delete_account st sessions user)) in
  (forall header u, authenticateToken jwt_verify st' header = auth_next u ->
                    user_id u <> user)
  /\ (forall token u, socketAuth jwt_verify st' token = socket_accept u ->
                      user_id u <> user)
  /\ (forall s, In s sessions' -> session_user_id s <> user)
  /\ lobbies st' = lobbies st
  /\ lobby_members st' = lobby_members st.
Proof.
  simpl.
  assert (Hact : forall id u rest,
             active_users
               (fst (fst (delete_account st sessions user))) id = u :: rest ->
             user_id u <> user).
  { intros id u rest H. apply active_users_head in H.
    destruct H as (Hin & _ & Ha). intros Hid.
    rewrite (deactivated_rows (users st) user u Hin Hid) in Ha.
    discriminate. }
  repeat apply conj; try reflexivity.
  - intros header u. unfold authenticateToken.
    destruct (bearer_token header) as [ t | ]; [ | discriminate ].
    destruct (jwt_verify t) as [ userId | | | ]; try discriminate.
    destruct (active_users _ userId) as [ | u0 rest ] eqn:Ha;
      [ discriminate | ].
    intros H. injection H as <-. exact (Hact userId u0 rest Ha).
  - intros token u. unfold socketAuth.
    destruct token as [ t | ]; [ | discriminate ].
    destruct (t =? "")%string; [ discriminate | ].
    destruct (jwt_verify t) as [ userId | | | ]; try discriminate.
    destruct (active_users _ userId) as [ | u0 rest ] eqn:Ha;
      [ discriminate | ].
    intros H. injection H as <-. exact (Hact userId u0 rest Ha).
  - intros s Hs. apply filter_In in Hs. destruct Hs as [ _ Hs ].
    apply negb_true_iff in Hs. now apply String.eqb_neq.
Qed.

Lemma deleted_account_locked_out_witness :
  let st' := fst (fst (delete_account db_ride [] alice)) in
  authenticateToken sample_verify db_ride (Some "Bearer alice-token")
  = auth_next (sample_user alice)
  /\ authenticateToken sample_verify st' (Some "Bearer alice-token")
     = auth_reject (json 401 false "Invalid token or user not found")
  /\ authenticateToken sample_verify st' (Some "Bearer bob-token")
     = auth_next (sample_user bob)
  /\ user_id (sample_user bob) <> alice.
Proof.
  destruct (deleted_account_locked_out sample_verify db_ride [] alice)
    as (Hhttp & _).
  repeat split.
  exact (Hhttp (Some "Bearer bob-token") (sample_user bob) eq_refl).
Defined.

(** ** Validation *)

Lemma rtrim_rtrim (s : string) : rtrim (rtrim s) = rtrim s.
Proof.
  induction s as [ | c r IH ]; [ reflexivity | ].
  cbn [rtrim]. destruct (rtrim r) as [ | d r' ] eqn:Hr.
  - destruct (is_space c) eqn:Hc; [ reflexivity | ]. cbn [rtrim].
    now rewrite Hc.
  - change (rtrim (String c (String d r')))
      with (match rtrim (String d r') with
            | EmptyString =>
                if is_space c then EmptyString else String c EmptyString
            | r'' => String c r''
            end).
    now rewrite IH.
Qed.

Lemma ltrim_rtrim_ltrim (s : string) :
  ltrim (rtrim (ltrim s)) = rtrim (ltrim s).
Proof.
  induction s as [ | c r IH ]; [ reflexivity | ].
  cbn [ltrim]. destruct (is_space c) eqn:Hc; [ exact IH | ].
  cbn [rtrim]. destruct (rtrim r); rewrite ?Hc; cbn [ltrim]; now rewrite Hc.
Qed.

Lemma trim_trim (s : string) : trim (trim s) = trim s.
Proof.
  unfold trim. now rewrite ltrim_rtrim_ltrim, rtrim_rtrim.
Qed.

(** X4. A body that [createLobbyValidation] lets through reaches the
    handler with both locations trimmed and of 2 to 255 characters, a
    vehicle type among the three, 1 to 15 seats and a price that is not
    negative, the other fields as sent; validating it again changes
    nothing. *)
Theorem create_validation_sanitizes (isISO8601 : string -> bool)
        (b b' : create_body) :
  createLobbyValidation isISO8601 b = Some b' ->
  fromLocation b' = trim (fromLocation b)
  /\ toLocation b' = trim (toLocation b)
  /\ (2 <= String.length (fromLocation b') <= 255)%nat
  /\ (2 <= String.length (toLocation b') <= 255)%nat
  /\ isISO8601 (departureTime b') = true
  /\ In (vehicleType b') ["small"; "medium"; "large"]
  /\ 1 <= availableSeats b' <= 15
  /\ (0 <= pricePerSeat b')%Q
  /\ (departureTime b', vehicleType b', availableSeats b', pricePerSeat b',
      body_description b')
     = (departureTime b, vehicleType b, availableSeats b, pricePerSeat b,
        body_description b)
  /\ createLobbyValidation isISO8601 b' = Some b'.
Proof.
  unfold createLobbyValidation.
  destruct (_ && _) eqn:Hc; [ | discriminate ].
  intros H. injection H as <-.
  cbn [fromLocation toLocation departureTime vehicleType availableSeats
       pricePerSeat body_description].
  rewrite !trim_trim, Hc.
  repeat (apply andb_true_iff in Hc; destruct Hc as [ Hc ? ]).
  unfold isLength in *.
  repeat match goal with
         | H : (_ && _)%bool = true |- _ =>
             apply andb_true_iff in H; destruct H
         | H : (_ <=? _)%nat = true |- _ => apply Nat.leb_le in H
         | H : (_ <=? _) = true |- _ => apply Z.leb_le in H
         end.
  repeat split; auto.
  - unfold isIn in *. simpl in *.
    repeat match goal with
           | H : (_ || _)%bool = true |- _ =>
               apply orb_true_iff in H; destruct H
           | H : (_ =? _)%string = true |- _ => apply String.eqb_eq in H
           end; auto; discriminate.
  - now apply Qle_bool_iff.
Qed.

Lemma create_validation_sanitizes_witness :
  let b := {| fromLocation := "  Bole "; toLocation := "Piassa";
              departureTime := "2026-01-01T08:00:00Z";
              vehicleType := "small"; availableSeats := 4;
              pricePerSeat := (35 # 1)%Q; body_description := "" |} in
  let b' := {| fromLocation := "Bole"; toLocation := "Piassa";
               departureTime := "2026-01-01T08:00:00Z";
               vehicleType := "small"; availableSeats := 4;
               pricePerSeat := (35 # 1)%Q; body_description := "" |} in
  createLobbyValidation any_time b = Some b'
  /\ (2 <= String.length (fromLocation b') <= 255)%nat
  /\ createLobbyValidation any_time b' = Some b'.
Proof.
  intros b b'.
  assert (Hv : createLobbyValidation any_time b = Some b') by reflexivity.
  destruct (create_validation_sanitizes any_time b b' Hv)
    as (_ & _ & Hlen & _ & _ & _ & _ & _ & _ & Hagain).
  auto.
Defined.

Lemma take_hex_length (n : nat) (s r : string) :
  take_hex n s = Some r -> String.length s = (n + String.length r)%nat.
Proof.
  revert s. induction n as [ | n IH ]; intros s; simpl.
  - intros H. now injection H as <-.
  - destruct s as [ | c s' ]; [ discriminate | ].
    destruct (is_hex c); [ | discriminate ].
    intros H. simpl. now rewrite (IH s' H).
Qed.

Lemma isUUID_length (s : string) :
  isUUID s = true -> String.length s = 36%nat.
Proof.
  unfold isUUID. cbn [uuid_groups].
  repeat match goal with
         | |- context [ take_hex ?n ?x ] =>
             let r := fresh "r" in
             let H := fresh "H" in
             destruct (take_hex n x) as [ r | ] eqn:H; [ | discriminate ];
             apply take_hex_length in H; rewrite H;
             destruct r as [ | [ [ | ] [ | ] [ | ] [ | ] [ | ] [ | ] [ | ] [ | ] ]
                               r ];
             try discriminate; cbn [String.length]
         end.
  intros _. lia.
Qed.

(** X6. [uuidValidation] passes exactly when the route has a segment named
    [id] holding a UUID of 36 characters. A route that names its segment
    otherwise is answered 400 on every request, and never gets to its
    handler: completing a ride, posting, reading and deleting a chat
    message over REST. *)
Theorem uuid_validation_needs_id (ps : params) (st : DB)
        (user new_id segment : uuid) (fare : complete_body)
        (msg : message_body) (page limit : Z) :
  (uuidValidation ps = true
   <-> exists v, param "id" ps = Some v /\ isUUID v = true
                 /\ String.length v = 36%nat)
  /\ post_complete st user new_id segment fare = (st, validation_failed)
  /\ post_message st user new_id segment msg = (st, validation_failed)
  /\ get_messages_route st user segment page limit
     = (validation_failed, None)
  /\ delete_message_route st user segment = (st, validation_failed).
Proof.
  split; [ | repeat split ].
  unfold uuidValidation. split.
  - intros H. destruct (param "id" ps) as [ v | ]; [ | discriminate ].
    exists v. repeat split; auto. now apply isUUID_length.
  - intros (v & Hp & Hu & _). now rewrite Hp.
Qed.

Lemma uuid_validation_needs_id_witness :
  uuidValidation [("id", lobby1)] = true
  /\ uuidValidation [("lobbyId", lobby1)] = false
  /\ String.length lobby1 = 36%nat.
Proof.
  destruct (uuid_validation_needs_id [("id", lobby1)] empty_db alice ride1
              lobby1 fare_90 empty_video 1 50) as [ Hiff _ ].
  assert (Hok : uuidValidation [("id", lobby1)] = true) by reflexivity.
  destruct (proj1 Hiff Hok) as (v & Hp & _ & Hlen).
  injection Hp as <-.
  split; [ exact Hok | split; [ reflexivity | exact Hlen ] ].
Defined.

(** ** Joining and leaving *)

Lemma marked_rows_not_active (ms : list member_row) (id user : uuid) :
  filter (fun m => (member_lobby_id m =? id)%string
                   && (member_user_id m =? user)%string
                   && (member_status m =? "active")%string)
         (map (fun m =>
                 if (member_lobby_id m =? id)%string
                    && (member_user_id m =? user)%string
                 then {| member_lobby_id := member_lobby_id m;
                         member_user_id := member_user_id m;
                         pickup_location := pickup_location m;
                         member_status := "left" |}
                 else m) ms)
  = [].
Proof.
  apply filter_none_nil. intros m Hm. apply in_map_iff in Hm.
  destruct Hm as (m0 & Heq & _). cbv beta in Heq.
  destruct ((member_lobby_id m0 =? id)%string
            && (member_user_id m0 =? user)%string) eqn:Hp; subst m.
  - simpl. now rewrite andb_false_r.
  - now rewrite Hp.
Qed.

Lemma leave_lobby_success (st : DB) (user id : uuid) :
  success (snd (leave_lobby st user id)) = true ->
  member_rows_status st id user "active" <> []
  /\ lobby_members (fst (leave_lobby st user id))
     = lobby_members (update_member_status st "left" id user).
Proof.
  unfold leave_lobby.
  destruct (member_rows_status st id user "active"); [ discriminate | ].
  destruct (lobbies_by_id _ id) as [ | lobby rest ]; [ discriminate | ].
  intros _. split; [ discriminate | ].
  simpl. now destruct (creator_id lobby =? user)%string.
Qed.

Lemma member_rows_of_active (st : DB) (id user : uuid) :
  member_rows_status st id user "active" <> [] -> member_rows st id user <> [].
Proof.
  unfold member_rows_status, member_rows. intros Hne Hnil. apply Hne.
  apply filter_none_nil. intros m Hm.
  now rewrite (filter_nil_none _ _ Hnil m Hm).
Qed.

(** X9. Once a user has left a lobby, the membership row is still there,
    marked left, and the user is shut out of the lobby: a second leave and
    a new join are refused and change nothing, the user can no longer
    subscribe to the lobby's room or post to it over the socket, and a
    location the user sends is dropped. *)
Theorem left_member_locked_out (st : DB) (user id : uuid) :
  success (snd (post_leave st user id)) = true ->
  let st' := fst (post_leave st user id) in
  (member_rows st' id user <> []
   /\ forall m, In m (member_rows st' id user) -> member_status m = "left")
  /\ post_leave st' user id
     = (st', json 400 false "You are not a member of this lobby")
  /\ (forall pickup,
         fst (post_join st' user id pickup) = st'
         /\ success (snd (post_join st' user id pickup)) = false)
  /\ (forall rooms,
         on_join_lobby st' user rooms id
         = (rooms, to_socket_error "Not authorized to join this lobby"))
  /\ (forall new_id b,
         send_message st' user new_id id b
         = (st', emit_error "Not authorized to send messages to this lobby"))
  /\ location_update st' user id = nothing.
Proof.
  unfold post_leave, post_join.
  destruct (uuidValidation _) eqn:Hu; [ | discriminate ].
  intros Hs. simpl.
  destruct (leave_lobby_success st user id Hs) as [ Hactive Hmembers ].
  set (st' := fst (leave_lobby st user id)) in *.
  assert (Hnone : member_rows_status st' id user "active" = []).
  { unfold member_rows_status. rewrite Hmembers.
    apply marked_rows_not_active. }
  assert (Hrow : member_rows st' id user <> []).
  { apply member_rows_pair. apply (leave_lobby_kept st user id).
    apply member_rows_pair. now apply member_rows_of_active. }
  split.
  { split; [ exact Hrow | ].
    intros m Hm. unfold member_rows in Hm. rewrite Hmembers in Hm.
    apply filter_In in Hm. destruct Hm as [ Hm Hpair ].
    unfold update_member_status in Hm. simpl in Hm.
    apply in_map_iff in Hm. destruct Hm as (m0 & <- & _).
    destruct ((member_lobby_id m0 =? id)%string
              && (member_user_id m0 =? user)%string) eqn:Hp0;
      [ reflexivity | ].
    now rewrite Hp0 in Hpair. }
  unfold leave_lobby, on_join_lobby, send_message, location_update.
  rewrite Hnone.
  split; [ reflexivity | ]. split; [ | now repeat split ].
  intros pickup.
  destruct (join_lobby_member st' user id pickup Hrow) as (H1 & H2 & _).
  now split.
Qed.

Lemma left_member_locked_out_witness :
  send_message db_bob_left bob msg1 lobby1
    {| body_message := Some "hello"; messageType := None |}
  = (db_bob_left,
     emit_error "Not authorized to send messages to this lobby")
  /\ post_leave db_bob_left bob lobby1
     = (db_bob_left, json 400 false "You are not a member of this lobby")
  /\ map member_status (member_rows db_bob_left lobby1 bob) = ["left"].
Proof.
  assert (Hs : success (snd (post_leave db_open bob lobby1)) = true)
    by reflexivity.
  destruct (left_member_locked_out db_open bob lobby1 Hs)
    as (_ & Hleave & _ & _ & Hsend & _).
  split; [ exact (Hsend msg1 _) | ].
  split; [ exact Hleave | reflexivity ].
Defined.

Lemma join_lobby_success (st : DB) (user id : uuid) (pickup : option string) :
  success (snd (join_lobby st user id pickup)) = true ->
  exists lobby rest,
    lobbies_by_id_status st id "active" = lobby :: rest
    /\ member_rows st id user = []
    /\ count_members st id "active" < available_seats lobby
    /\ fst (join_lobby st user id pickup)
       = set_lobby_members st
           (lobby_members st ++
              [{| member_lobby_id := id; member_user_id := user;
                  pickup_location := js_or pickup (from_location lobby);
                  member_status := "active" |}]).
Proof.
  unfold join_lobby.
  destruct (lobbies_by_id_status st id "active") as [ | lobby rest ];
    [ discriminate | ].
  destruct (0 <? _)%nat; [ discriminate | ].
  destruct (_ >=? _) eqn:Hfull; [ discriminate | ].
  destruct (insert_member _ _ _ _) as [ st1 | ] eqn:Hins; [ | discriminate ].
  intros _. apply insert_member_some in Hins. destruct Hins as [ Hnone -> ].
  exists lobby, rest. rewrite Z.geb_leb in Hfull. apply Z.leb_gt in Hfull.
  auto.
Qed.

Lemma count_after_left_exact (st : DB) (id user : uuid) :
  count_members (update_member_status st "left" id user) id "active"
  = count_members st id "active"
    - Z.of_nat (List.length (member_rows_status st id user "active")).
Proof.
  unfold count_members, members_with_status, member_rows_status,
    update_member_status. cbn [lobby_members set_lobby_members].
  match goal with
  | |- Z.of_nat ?a = Z.of_nat ?b - Z.of_nat ?c =>
      assert (H : (a + c = b)%nat); [ | lia ]
  end.
  induction (lobby_members st) as [ | m ms IH ]; [ reflexivity | ].
  cbn [map filter].
  destruct (member_lobby_id m =? id)%string eqn:Hl;
    destruct (member_user_id m =? user)%string eqn:Hu;
    destruct (member_status m =? "active")%string eqn:Hs;
    cbn [andb member_lobby_id member_status]; rewrite ?Hl, ?Hs;
    try change ("left" =? "active")%string with false;
    cbn [andb List.length]; lia.
Qed.

(** X10. A join that succeeds adds one active membership for the user, with
    the pickup given or else the lobby's starting point, and nothing else;
    the lobby has one active member more. If the user then leaves, the leave
    succeeds and the lobby has as many active members as before the join. *)
Theorem join_then_leave (st : DB) (user id : uuid) (pickup : option string) :
  success (snd (post_join st user id pickup)) = true ->
  let st1 := fst (post_join st user id pickup) in
  let st2 := fst (post_leave st1 user id) in
  (exists lobby,
      In lobby (lobbies st) /\ lobby_id lobby = id
      /\ lobby_status lobby = "active"
      /\ st1 = set_lobby_members st
                 (lobby_members st ++
                    [{| member_lobby_id := id; member_user_id := user;
                        pickup_location := js_or pickup (from_location lobby);
                        member_status := "active" |}]))
  /\ count_members st1 id "active" = count_members st id "active" + 1
  /\ success (snd (post_leave st1 user id)) = true
  /\ count_members st2 id "active" = count_members st id "active".
Proof.
  unfold post_join, post_leave.
  destruct (uuidValidation _); [ | discriminate ].
  intros Hs. simpl.
  destruct (join_lobby_success st user id pickup Hs)
    as (lobby & rest & Hl & Hnone & _ & Hst1).
  apply filter_head_In in Hl. destruct Hl as [ Hin Hc ].
  apply andb_true_iff in Hc. destruct Hc as [ Hid Hstatus ].
  apply String.eqb_eq in Hid, Hstatus.
  rewrite Hst1.
  set (row := {| member_lobby_id := id; member_user_id := user;
                 pickup_location := js_or pickup (from_location lobby);
                 member_status := "active" |}).
  set (st1 := set_lobby_members st (lobby_members st ++ [row])).
  assert (Hcount1 : count_members st1 id "active"
                    = count_members st id "active" + 1).
  { unfold st1, row. rewrite count_after_insert, String.eqb_refl.
    reflexivity. }
  assert (Hrows : member_rows_status st1 id user "active" = [row]).
  { unfold member_rows_status, st1. simpl. rewrite filter_app. simpl.
    rewrite !String.eqb_refl. simpl.
    rewrite filter_none_nil; [ reflexivity | ].
    intros m Hm. unfold member_rows in Hnone.
    now rewrite (filter_nil_none _ _ Hnone m Hm). }
  assert (Hlobby : exists rest', lobbies_by_id st1 id = lobby :: rest'
                              \/ exists l0, lobbies_by_id st1 id = l0 :: rest').
  { unfold lobbies_by_id, st1. simpl.
    destruct (filter _ (lobbies st)) as [ | l0 rest' ] eqn:Hf.
    - pose proof (filter_nil_none _ _ Hf lobby Hin) as Hno. simpl in Hno.
      rewrite Hid, String.eqb_refl in Hno. discriminate.
    - exists rest'. right. now exists l0. }
  split; [ exists lobby; auto | ].
  split; [ exact Hcount1 | ].
  unfold leave_lobby. rewrite Hrows.
  replace (lobbies_by_id (update_member_status st1 "left" id user) id)
    with (lobbies_by_id st1 id) by reflexivity.
  destruct Hlobby as (rest' & [ Hl1 | (l0 & Hl1) ]); rewrite Hl1; simpl;
    (split; [ reflexivity | ]).
  - destruct (creator_id lobby =? user)%string;
      rewrite ?(count_members_ext _ _ id "active"
                  (update_lobby_status_members _ _ _));
      rewrite count_after_left_exact, Hrows, Hcount1; simpl; lia.
  - destruct (creator_id l0 =? user)%string;
      rewrite ?(count_members_ext _ _ id "active"
                  (update_lobby_status_members _ _ _));
      rewrite count_after_left_exact, Hrows, Hcount1; simpl; lia.
Qed.

Lemma join_then_leave_witness :
  let st := fst (post_lobby geocode_found any_time empty_db alice lobby1
                   (bole_piassa 3)) in
  let st1 := fst (post_join st bob lobby1 (Some "Megenagna")) in
  map pickup_location (lobby_members st1) = ["Bole"; "Megenagna"]
  /\ count_members st1 lobby1 "active" = count_members st lobby1 "active" + 1
  /\ count_members (fst (post_leave st1 bob lobby1)) lobby1 "active"
     = count_members st lobby1 "active".
Proof.
  intros st st1.
  assert (Hs : success (snd (post_join st bob lobby1 (Some "Megenagna"))) = true)
    by reflexivity.
  destruct (join_then_leave st bob lobby1 (Some "Megenagna") Hs)
    as (_ & Hcount & _ & Hback).
  split; [ reflexivity | ]. split; [ exact Hcount | exact Hback ].
Defined.

(** ** Creating a lobby, changing its status *)

(** X11. When a lobby is created (the request succeeds) in a database whose
    memberships all refer to lobbies, the lobby row is appended under an id
    that was free, active, owned by the requester, with the validated seats
    and the trimmed locations; its creator is its only active member, picked
    up at the starting point. *)
Theorem created_lobby_has_its_creator
        (geocodeAddress : string -> option (option (Q * Q)))
        (isISO8601 : string -> bool) (st : DB) (user new_id : uuid)
        (b : create_body) :
  members_fk st ->
  success (snd (post_lobby geocodeAddress isISO8601 st user new_id b)) = true ->
  let st' := fst (post_lobby geocodeAddress isISO8601 st user new_id b) in
  ~ In new_id (map lobby_id (lobbies st))
  /\ (exists l,
         lobbies st' = (lobbies st ++ [l])%list
         /\ lobby_id l = new_id /\ creator_id l = user
         /\ lobby_status l = "active"
         /\ available_seats l = availableSeats b
         /\ 1 <= available_seats l <= 15
         /\ from_location l = trim (fromLocation b)
         /\ to_location l = trim (toLocation b))
  /\ members_with_status st' new_id "active"
     = [{| member_lobby_id := new_id; member_user_id := user;
           pickup_location := trim (fromLocation b);
           member_status := "active" |}]
  /\ count_members st' new_id "active" = 1.
Proof.
  intros Hfk. unfold post_lobby.
  destruct (createLobbyValidation isISO8601 b) as [ b' | ] eqn:Hv;
    [ | discriminate ].
  pose proof (validated_seats isISO8601 b b' Hv) as Hseats.
  assert (Hb' : fromLocation b' = trim (fromLocation b)
                /\ toLocation b' = trim (toLocation b)
                /\ availableSeats b' = availableSeats b).
  { unfold createLobbyValidation in Hv.
    destruct (_ && _); [ | discriminate ]. now injection Hv as <-. }
  destruct Hb' as (Hfrom & Hto & Hsame).
  unfold create_lobby.
  destruct (geocodeAddress (fromLocation b')) as [ fc | ]; [ | discriminate ].
  destruct (geocodeAddress (toLocation b')) as [ tc | ]; [ | discriminate ].
  destruct fc as [ fc | ], tc as [ tc | ]; try discriminate.
  destruct (insert_lobby _ _) as [ st1 | ] eqn:Hins; [ | discriminate ].
  apply insert_lobby_some in Hins. simpl in Hins.
  destruct Hins as [ Hfresh -> ].
  destruct (insert_member _ _ _ _) as [ st2 | ] eqn:Hm; [ | discriminate ].
  apply insert_member_some in Hm. destruct Hm as [ _ -> ].
  intros _. simpl fst.
  assert (Hold : filter (fun m => (member_lobby_id m =? new_id)%string
                                  && (member_status m =? "active")%string)
                        (lobby_members st) = []).
  { apply filter_none_nil. intros m Hm.
    destruct (member_lobby_id m =? new_id)%string eqn:Hid; [ | reflexivity ].
    apply String.eqb_eq in Hid. exfalso. apply Hfresh. rewrite <- Hid.
    now apply Hfk. }
  assert (Hrows : forall ls,
             members_with_status
                    (set_lobby_members
                       (set_lobbies st ls)
                       (lobby_members st ++
                          [{| member_lobby_id := new_id;
                              member_user_id := user;
                              pickup_location := fromLocation b';
                              member_status := "active" |}]))
                    new_id "active"
                  = [{| member_lobby_id := new_id; member_user_id := user;
                        pickup_location := trim (fromLocation b);
                        member_status := "active" |}]).
  { intros ls. unfold members_with_status. simpl. rewrite filter_app, Hold.
    simpl. now rewrite String.eqb_refl, Hfrom. }
  split; [ exact Hfresh | ]. split.
  - eexists. split; [ reflexivity | ]. simpl.
    rewrite <- Hsame. repeat split; auto; apply Hseats.
  - split; [ apply Hrows | ].
    unfold count_members. now rewrite Hrows.
Qed.

Lemma created_lobby_has_its_creator_witness :
  let st' := fst (post_lobby geocode_found any_time db_ride alice ride0
                    (bole_piassa 3)) in
  map lobby_id (lobbies st') = [lobby1; ride0]
  /\ map member_user_id (members_with_status st' ride0 "active") = [alice]
  /\ count_members st' ride0 "active" = 1.
Proof.
  assert (Hfk : members_fk db_ride).
  { intros m Hm. vm_compute in Hm.
    destruct Hm as [ <- | [ <- | [] ] ]; vm_compute; now left. }
  destruct (created_lobby_has_its_creator geocode_found any_time db_ride
              alice ride0 (bole_piassa 3) Hfk eq_refl)
    as (_ & _ & Hrows & Hcount).
  split; [ reflexivity | ].
  split; [ now rewrite Hrows | exact Hcount ].
Defined.

(** X12. Nobody but its creator changes the status of a lobby: a request of
    another user is refused over [PUT /:id/status] (403 for a well-formed
    request) and over the socket event, and the database stays as it is. *)
Theorem only_creator_sets_status (st : DB) (user id : uuid) (status : string)
        (l : lobby_row) :
  lobby_pk st -> In l (lobbies st) -> lobby_id l = id ->
  creator_id l <> user ->
  fst (put_status st user id status) = st
  /\ success (snd (put_status st user id status)) = false
  /\ (isUUID id = true ->
      isIn ["active"; "started"; "completed"; "cancelled"] status = true ->
      snd (put_status st user id status)
      = json 403 false "Only lobby creator can update status")
  /\ lobby_status_update st user id status
     = (st, emit_error "Not authorized to update this lobby").
Proof.
  intros Hpk Hl Hid Hne.
  assert (Hput : fst (update_status st user id status) = st
                 /\ success (snd (update_status st user id status)) = false
                 /\ (isIn ["active"; "started"; "completed"; "cancelled"]
                          status = true ->
                     snd (update_status st user id status)
                     = json 403 false "Only lobby creator can update status")).
  { unfold update_status.
    destruct (isIn _ status); simpl; [ | repeat split; discriminate ].
    destruct (lobbies_by_id_head st id l Hpk Hl Hid) as [ rest -> ].
    apply String.eqb_neq in Hne. rewrite Hne. simpl. auto. }
  destruct Hput as (H1 & H2 & H3).
  unfold put_status, uuidValidation. simpl param. simpl field_string.
  destruct (isUUID id).
  - repeat split; auto.
    unfold lobby_status_update. rewrite filter_none_nil; [ reflexivity | ].
    intros l0 Hl0.
    destruct (lobby_id l0 =? id)%string eqn:H0; [ | reflexivity ].
    apply String.eqb_eq in H0.
    assert (l0 = l) by (apply (pk_unique (lobbies st)); auto; congruence).
    subst l0. simpl. now apply String.eqb_neq.
  - repeat split; try discriminate.
    unfold lobby_status_update. rewrite filter_none_nil; [ reflexivity | ].
    intros l0 Hl0.
    destruct (lobby_id l0 =? id)%string eqn:H0; [ | reflexivity ].
    apply String.eqb_eq in H0.
    assert (l0 = l) by (apply (pk_unique (lobbies st)); auto; congruence).
    subst l0. simpl. now apply String.eqb_neq.
Qed.

Lemma only_creator_sets_status_witness :
  put_status db_open bob lobby1 "started"
  = (db_open, json 403 false "Only lobby creator can update status")
  /\ lobby_status_update db_open bob lobby1 "started"
     = (db_open, emit_error "Not authorized to update this lobby").
Proof.
  assert (Hpk : lobby_pk db_open) by (apply run_ok, empty_db_ok).
  assert (Hin : In (alice_lobby 2 "active") (lobbies db_open))
    by (vm_compute; now left).
  assert (Hne : creator_id (alice_lobby 2 "active") <> bob)
    by (vm_compute; discriminate).
  destruct (only_creator_sets_status db_open bob lobby1 "started"
              (alice_lobby 2 "active") Hpk Hin eq_refl Hne)
    as (Hst & _ & Hmsg & Hsock).
  split; [ | exact Hsock ].
  apply injective_projections; [ exact Hst | now apply Hmsg ].
Defined.

(** ** Refused requests *)








(** The foreign key matters: with a membership whose lobby is gone, a leave
    is answered 500 after the membership has been marked. *)
Example leave_without_lobby_is_partial :
  snd (leave_lobby db_orphan bob lobby1)
  = json 500 false "Failed to leave lobby"
  /\ map member_status (lobby_members db_orphan) = ["active"]
  /\ map member_status (lobby_members (fst (leave_lobby db_orphan bob lobby1)))
     = ["left"].
Proof. repeat split. Qed.

(** ** Ratings: one per participant and ride, within the scale *)

Lemma rate_participant_score (st : DB) (user id : uuid) (b : rate_body) :
  success (snd (rate_participant st user id b)) = true ->
  exists ratee r,
    participantUserId b = Some ratee /\ body_rating b = Some r
    /\ 1 <= r <= 5.
Proof.
  unfold rate_participant.
  destruct (participantUserId b) as [ ratee | ]; [ | discriminate ].
  destruct (body_rating b) as [ r | ]; [ | discriminate ].
  destruct (_ || _); [ discriminate | ].
  destruct ((r <? 1) || (r >? 5)) eqn:Hr; [ discriminate | ].
  intros _. exists ratee, r. apply orb_false_iff in Hr.
  destruct Hr as [ H1 H5 ]. apply Z.ltb_ge in H1.
  rewrite Z.gtb_ltb in H5. apply Z.ltb_ge in H5. auto.
Qed.

Lemma update_rating_rated (st : DB) (r : Z) (rev : option string)
      (id ratee : uuid) :
  participant_rows st id ratee <> [] ->
  filter (fun p => is_some (rating p))
         (participant_rows (update_rating st r rev id ratee) id ratee)
  <> [].
Proof.
  unfold participant_rows. intros Hne Hnil.
  destruct (filter _ (ride_participants st)) as [ | p ps ] eqn:Hf; [ easy | ].
  apply filter_head_In in Hf. destruct Hf as [ Hin Hm ].
  set (p' := {| part_ride_id := part_ride_id p;
                part_user_id := part_user_id p;
                amount_paid := amount_paid p;
                part_pickup_location := part_pickup_location p;
                dropoff_location := dropoff_location p;
                rating := Some r; review := rev |}).
  assert (Hin' : In p' (filter (fun p => (part_ride_id p =? id)%string
                                         && (part_user_id p =? ratee)%string)
                               (ride_participants
                                  (update_rating st r rev id ratee)))).
  { apply filter_In. split; [ | exact Hm ].
    unfold update_rating. simpl. apply in_map_iff. exists p.
    split; [ now rewrite Hm | exact Hin ]. }
  pose proof (filter_nil_none _ _ Hnil p' Hin') as Hno. discriminate.
Qed.

(** X14. A participant is rated once per ride, first come first served:
    after a rating has been accepted, every further rating of the same
    participant for the same ride, by anyone and with any body, is refused
    and changes nothing; the answer to a participant who sends a score from
    1 to 5 is that the participant is already rated. *)
Theorem second_rating_refused (st : DB) (user id : uuid) (b : rate_body) :
  success (snd (post_rate st user id b)) = true ->
  let st' := fst (post_rate st user id b) in
  forall user' b',
    participantUserId b' = participantUserId b ->
    fst (post_rate st' user' id b') = st'
    /\ success (snd (post_rate st' user' id b')) = false
    /\ (participant_rows st' id user' <> [] ->
        (exists r', body_rating b' = Some r' /\ 1 <= r' <= 5) ->
        snd (post_rate st' user' id b')
        = json 400 false "You have already rated this participant").
Proof.
  unfold post_rate. destruct (uuidValidation _); [ | discriminate ].
  intros Hs.
  destruct (rate_participant_success st user id b Hs)
    as (ratee & r & Hb1 & Hb2 & Hrow & Hst').
  simpl. rewrite Hst'. clear Hst'.
  set (st1 := update_rating st r (body_review b) id ratee).
  set (st' := update_user_rating st1 (avg_rating st1 ratee) ratee).
  assert (Hratee : participant_rows st' id ratee <> []).
  { intros Hnil.
    apply (update_rating_rated st r (body_review b) id ratee Hrow).
    fold st1.
    replace (participant_rows st1 id ratee)
      with (participant_rows st' id ratee) by reflexivity.
    now rewrite Hnil. }
  assert (Hrated : filter (fun p => is_some (rating p))
                          (participant_rows st' id ratee) <> [])
    by apply (update_rating_rated st r (body_review b) id ratee Hrow).
  intros user' b' Hsame. unfold rate_participant. rewrite Hsame, Hb1.
  destruct (body_rating b') as [ r' | ] eqn:Hr';
    [ | repeat split; auto; intros _ (x & Hx & _); discriminate ].
  destruct (_ || _) eqn:H0.
  - repeat split; auto. intros _ (x & Hx & Hrange). injection Hx as <-.
    apply orb_true_iff in H0. destruct H0 as [ H0 | H0 ].
    + apply String.eqb_eq in H0. subst ratee. exfalso.
      destruct (rate_participant_score st user id b Hs)
        as (ratee0 & r0 & Hp0 & _ & _).
      unfold rate_participant in Hs. rewrite Hb1, Hb2 in Hs.
      simpl in Hs. discriminate.
    + apply Z.eqb_eq in H0. lia.
  - destruct ((r' <? 1) || (r' >? 5)) eqn:H1.
    + repeat split; auto. intros _ (x & Hx & Hrange). injection Hx as <-.
      apply orb_true_iff in H1. destruct H1 as [ H1 | H1 ].
      * apply Z.ltb_lt in H1. lia.
      * rewrite Z.gtb_ltb in H1. apply Z.ltb_lt in H1. lia.
    + destruct (participant_rows st' id user') as [ | q qs ];
        [ repeat split; auto; intros Hx; now destruct Hx | ].
      destruct (participant_rows st' id ratee) as [ | p ps ]; [ easy | ].
      destruct (filter _ (p :: ps)); [ easy | ].
      repeat split; auto.
Qed.

Lemma second_rating_refused_witness :
  let st' := fst (post_rate db_ride bob ride1 bob_rates_alice) in
  success (snd (post_rate db_ride bob ride1 bob_rates_alice)) = true
  /\ post_rate st' alice ride1 self_rating
     = (st', json 400 false "You have already rated this participant").
Proof.
  intros st'.
  assert (Hs : success (snd (post_rate db_ride bob ride1 bob_rates_alice))
               = true) by reflexivity.
  destruct (second_rating_refused db_ride bob ride1 bob_rates_alice Hs
              alice self_rating eq_refl) as (Hst & _ & Hmsg).
  split; [ exact Hs | ].
  apply injective_projections; [ exact Hst | ].
  apply Hmsg; [ vm_compute; discriminate | ].
  exists 1. split; [ reflexivity | lia ].
Defined.

Lemma sumZ_bounds (a b : Z) (rs : list Z) :
  (forall x, In x rs -> a <= x <= b) ->
  a * Z.of_nat (List.length rs) <= sumZ rs <= b * Z.of_nat (List.length rs).
Proof.
  induction rs as [ | x rs IH ]; intros H; [ simpl; lia | ].
  cbn [sumZ fold_right List.length]. fold (sumZ rs).
  rewrite Nat2Z.inj_succ.
  pose proof (H x (or_introl eq_refl)).
  assert (Hrs : forall y, In y rs -> a <= y <= b)
    by (intros y Hy; apply H; now right).
  specialize (IH Hrs). lia.
Qed.

Lemma mean_bounds (a b : Z) (rs : list Z) :
  rs <> [] -> (forall x, In x rs -> a <= x <= b) ->
  (inject_Z a <= mean rs /\ mean rs <= inject_Z b)%Q.
Proof.
  intros Hne H. pose proof (sumZ_bounds a b rs H) as [ Hlo Hhi ].
  assert (Hpos : (0 < inject_Z (Z.of_nat (List.length rs)))%Q).
  { change 0%Q with (inject_Z 0). rewrite <- Zlt_Qlt.
    destruct rs; [ easy | ]. simpl List.length. lia. }
  unfold mean. split.
  - apply Qle_shift_div_l; [ exact Hpos | ].
    rewrite <- inject_Z_mult, <- Zle_Qle. exact Hlo.
  - apply Qle_shift_div_r; [ exact Hpos | ].
    rewrite <- inject_Z_mult, <- Zle_Qle. exact Hhi.
Qed.

Lemma update_rating_values (st : DB) (r : Z) (rev : option string)
      (id ratee : uuid) (p' : participant_row) (r0 : Z) :
  In p' (ride_participants (update_rating st r rev id ratee)) ->
  rating p' = Some r0 ->
  r0 = r \/ exists p, In p (ride_participants st) /\ rating p = Some r0.
Proof.
  unfold update_rating. simpl. intros Hin Hr.
  apply in_map_iff in Hin. destruct Hin as (p & Heq & Hp). cbv beta in Heq.
  destruct ((part_ride_id p =? id)%string
            && (part_user_id p =? ratee)%string); subst p'.
  - left. simpl in Hr. congruence.
  - right. eauto.
Qed.

(** X15. Ratings stay on their scale: when the ratings recorded so far are
    all from 1 to 5, as the table's check demands, the rating stored for
    the ratee by a successful rate call is a number from 1 to 5. *)
Theorem stored_rating_within_scale (st : DB) (user id : uuid) (b : rate_body) :
  (forall p r0, In p (ride_participants st) -> rating p = Some r0 ->
                1 <= r0 <= 5) ->
  success (snd (post_rate st user id b)) = true ->
  forall u, In u (users (fst (post_rate st user id b))) ->
            participantUserId b = Some (user_id u) ->
            exists q, user_rating u = Num q /\ (1 <= q /\ q <= 5)%Q.
Proof.
  intros Hcheck. unfold post_rate.
  destruct (uuidValidation _); [ | discriminate ].
  intros Hs u Hu Hid.
  destruct (rate_participant_score st user id b Hs)
    as (ratee0 & r0 & Hp0 & Hr0 & Hrange).
  destruct (rate_participant_success st user id b Hs)
    as (ratee & r & Hb1 & Hb2 & Hrow & Hst').
  assert (ratee0 = ratee) by congruence. assert (r0 = r) by congruence.
  subst ratee0 r0. simpl in Hu. rewrite Hst' in Hu.
  assert (Hratee : user_id u = ratee) by congruence.
  destruct (rated_user_mean st r (body_review b) id ratee Hrow)
    as (Hin & Husers & _).
  rewrite Husers in Hu.
  destruct (users_with_rating_In _ _ _ _ Hu) as [ [ _ Hmean ] | [ Hno _ ] ];
    [ | contradiction ].
  set (st1 := update_rating st r (body_review b) id ratee) in *.
  change (ride_participants
            (update_user_rating st1 (avg_rating st1 ratee) ratee))
    with (ride_participants st1) in Hin, Hmean.
  set (rs := ratings_of ratee (ride_participants st1)) in *.
  assert (Hne : rs <> []) by (intros E; rewrite E in Hin; destruct Hin).
  assert (Hall : forall x, In x rs -> 1 <= x <= 5).
  { intros x Hx. apply ratings_of_spec in Hx.
    destruct Hx as (p' & Hp' & _ & Hrp').
    destruct (update_rating_values st r (body_review b) id ratee p' x
                Hp' Hrp') as [ -> | (p & Hp & Hrp) ]; [ exact Hrange | ].
    exact (Hcheck p x Hp Hrp). }
  destruct (mean_bounds 1 5 rs Hne Hall) as [ Hlo Hhi ].
  exists (round2 (mean rs)). split; [ exact Hmean | ].
  exact (round2_between 1 5 (mean rs) Hlo Hhi).
Qed.

Lemma stored_rating_within_scale_witness :
  exists q,
    map user_rating
        (filter (fun u => user_id u =? alice)%string
                (users (fst (post_rate db_ride bob ride1 bob_rates_alice))))
    = [Num q]
    /\ (1 <= q /\ q <= 5)%Q.
Proof.
  assert (Hcheck : forall p r0, In p (ride_participants db_ride) ->
                                rating p = Some r0 -> 1 <= r0 <= 5).
  { intros p r0 Hp Hr. vm_compute in Hp.
    destruct Hp as [ <- | [ <- | [ <- | [] ] ] ]; simpl in Hr;
      try discriminate. injection Hr as <-. lia. }
  set (u := {| user_id := alice; user_total_rides := 0;
               user_rating := Num (450 # 100)%Q; user_is_active := true |}).
  assert (Hu : In u (users (fst (post_rate db_ride bob ride1
                                   bob_rates_alice))))
    by (vm_compute; now left).
  destruct (stored_rating_within_scale db_ride bob ride1 bob_rates_alice
              Hcheck eq_refl u Hu eq_refl) as (q & Hq & Hrange).
  exists q. split; [ | exact Hrange ].
  simpl in Hq. injection Hq as <-. reflexivity.
Defined.

(** ** Map routes: what reaches Mapbox *)

Lemma isValidEthiopianCoordinates_box (lon lat : Q) :
  isValidEthiopianCoordinates lon lat = true
  <-> (minLon <= lon)%Q /\ (lon <= maxLon)%Q
      /\ (minLat <= lat)%Q /\ (lat <= maxLat)%Q.
Proof.
  unfold isValidEthiopianCoordinates.
  rewrite !andb_true_iff, !Qle_bool_iff. tauto.
Qed.

Lemma check_pairs_passes (a b c : string) (l : list (list js_number)) :
  check_pairs a b c l = None <-> Forall within_ethiopia l.
Proof.
  induction l as [ | wp rest IH ]; simpl.
  - split; [ constructor | reflexivity ].
  - split.
    + destruct wp as [ | [ lon | ] [ | [ lat | ] [ | ] ] ]; try discriminate.
      destruct (isValidEthiopianCoordinates lon lat) eqn:Hv;
        [ | discriminate ].
      simpl. intros H. constructor; [ | now apply IH ].
      exists lon, lat. split; [ reflexivity | ].
      now apply isValidEthiopianCoordinates_box.
    + intros H. inversion H as [ | x xs Hwp Hrest ]; subst.
      destruct Hwp as (lon & lat & -> & Hbox).
      apply isValidEthiopianCoordinates_box in Hbox. rewrite Hbox. simpl.
      now apply IH.
Qed.

Lemma check_pairs_refuses (a b c : string) (l : list (list js_number))
      (r : response) :
  check_pairs a b c l = Some r -> status_code r = 400%nat.
Proof.
  induction l as [ | wp rest IH ]; simpl; [ discriminate | ].
  destruct wp as [ | [ lon | ] [ | [ lat | ] [ | ] ] ];
    try (intros H; injection H as <-; reflexivity).
  destruct (isValidEthiopianCoordinates lon lat); simpl;
    [ exact IH | intros H; injection H as <-; reflexivity ].
Qed.

(** The test of a list does not depend on the messages of the route. *)
Lemma check_pairs_messages (a b c a' b' c' : string)
      (l : list (list js_number)) :
  check_pairs a b c l = None <-> check_pairs a' b' c' l = None.
Proof. now rewrite !check_pairs_passes. Qed.

(** X18. [POST /optimal-route] answers 400 exactly when its list is not
    acceptable (an array of 2 to 25 pairs of numbers, each within the
    bounding box of Ethiopia), and then without calling Mapbox; an
    acceptable list is passed on as it is and the answer is Mapbox's (500
    when the call throws, 404 when no route is found); and
    [POST /travel-matrix] refuses the same lists. *)
Theorem mapbox_gets_waypoints_within_ethiopia
        (route matrix : Type)
        (getOptimalRoute getOptimalRoute' :
           list (list js_number) -> string -> option (option route))
        (getTravelMatrix : list (list js_number) -> string -> option matrix)
        (waypoints : option (list (list js_number)))
        (profile : option string) :
  let answer := optimal_route getOptimalRoute waypoints profile in
  (status_code (fst answer) <> 400%nat ->
   exists wps, waypoints = Some wps /\ acceptable wps)
  /\ (status_code (fst answer) = 400%nat ->
      (forall wps, waypoints = Some wps -> ~ acceptable wps)
      /\ optimal_route getOptimalRoute' waypoints profile = answer)
  /\ (forall wps, waypoints = Some wps -> acceptable wps ->
        answer
        = match getOptimalRoute wps (default_to "driving" profile) with
          | None => (server_error "Failed to get optimal route", None)
          | Some None =>
              (json 404 false
                    "No optimal route found for the given waypoints", None)
          | Some (Some r) => (json 200 true "", Some r)
          end)
  /\ (status_code
        (fst (travel_matrix getTravelMatrix waypoints profile)) = 400%nat
      <-> status_code (fst answer) = 400%nat).
Proof.
  unfold optimal_route, travel_matrix, acceptable.
  destruct waypoints as [ wps | ]; simpl.
  2:{ split; [ intros H; now contradiction H | ].
      split; [ intros _; split; [ discriminate | reflexivity ] | ].
      split; [ discriminate | tauto ]. }
  destruct (List.length wps <? 2)%nat eqn:H2; simpl.
  { apply Nat.ltb_lt in H2.
    split; [ intros H; now contradiction H | ].
    split; [ intros _; split; [ | reflexivity ] | split; [ | tauto ] ];
      intros l Hl; injection Hl as <-; lia. }
  destruct (25 <? List.length wps)%nat eqn:H25; simpl.
  { apply Nat.ltb_lt in H25.
    split; [ intros H; now contradiction H | ].
    split; [ intros _; split; [ | reflexivity ] | split; [ | tauto ] ];
      intros l Hl; injection Hl as <-; lia. }
  apply Nat.ltb_ge in H2, H25.
  destruct (check_pairs
              "Each waypoint must be an array of [longitude, latitude]"
              "Invalid coordinates in waypoints"
              "All waypoints must be within Ethiopia" wps)
    as [ refusal | ] eqn:Hc.
  - destruct (check_pairs
                "Each coordinate must be an array of [longitude, latitude]"
                "Invalid coordinates"
                "All coordinates must be within Ethiopia" wps)
      as [ refusal' | ] eqn:Hc'.
    2:{ apply (check_pairs_messages _ _ _
                 "Each waypoint must be an array of [longitude, latitude]"
                 "Invalid coordinates in waypoints"
                 "All waypoints must be within Ethiopia") in Hc'.
        congruence. }
    pose proof (check_pairs_refuses _ _ _ _ _ Hc) as H400.
    pose proof (check_pairs_refuses _ _ _ _ _ Hc') as H400'.
    simpl.
    split; [ intros H; now contradiction H | ].
    split; [ intros _; split; [ | reflexivity ] | split; [ | tauto ] ];
      intros l Hl (_ & Hall); injection Hl as <-;
      apply (check_pairs_passes
               "Each waypoint must be an array of [longitude, latitude]"
               "Invalid coordinates in waypoints"
               "All waypoints must be within Ethiopia") in Hall;
      congruence.
  - pose proof Hc as Hc'.
    apply (check_pairs_messages _ _ _
             "Each coordinate must be an array of [longitude, latitude]"
             "Invalid coordinates"
             "All coordinates must be within Ethiopia") in Hc'.
    rewrite Hc'. apply check_pairs_passes in Hc.
    split; [ intros _; exists wps; auto | ].
    split.
    + destruct (getOptimalRoute wps _) as [ [ r | ] | ]; simpl; discriminate.
    + split.
      * intros l Hl _. injection Hl as <-. reflexivity.
      * destruct (getOptimalRoute wps _) as [ [ r | ] | ],
                 (getTravelMatrix wps _) as [ m | ]; simpl;
          split; discriminate.
Qed.

Lemma mapbox_gets_waypoints_within_ethiopia_witness :
  optimal_route sample_route (Some (map waypoint_of (firstn 2 locations))) None
  = (json 200 true "", Some 2%nat)
  /\ optimal_route sample_route (Some [[Num 0; Num 0]; [Num 0; Num 0]]) None
     = optimal_route (fun _ _ => None)
                     (Some [[Num 0; Num 0]; [Num 0; Num 0]]) None.
Proof.
  split.
  - destruct (mapbox_gets_waypoints_within_ethiopia
                nat nat sample_route sample_route sample_matrix
                (Some (map waypoint_of (firstn 2 locations))) None)
      as (_ & _ & Hpass & _).
    rewrite (Hpass _ eq_refl); [ reflexivity | ].
    split; [ simpl; lia | ].
    now apply (check_pairs_passes "" "" "").
  - destruct (mapbox_gets_waypoints_within_ethiopia
                nat nat (fun _ _ => None) sample_route sample_matrix
                (Some [[Num 0; Num 0]; [Num 0; Num 0]]) None)
      as (_ & Hrefused & _).
    now destruct (Hrefused eq_refl) as [ _ -> ].
Defined.

Lemma prefix_refl (s : string) : prefix s s = true.
Proof.
  induction s as [ | c s IH ]; simpl; [ reflexivity | ].
  destruct (ascii_dec c c); [ exact IH | contradiction ].
Qed.

Lemma includes_refl (s : string) : includes s s = true.
Proof.
  destruct s as [ | c s ]; [ reflexivity | ].
  cbn [includes]. now rewrite prefix_refl.
Qed.

Lemma locations_within_ethiopia (l : location) :
  In l locations -> within_ethiopia (waypoint_of l).
Proof.
  intros Hl.
  assert (Hall : forallb (fun l => isValidEthiopianCoordinates
                                     (longitude l) (latitude l))
                         locations = true) by (vm_compute; reflexivity).
  rewrite forallb_forall in Hall. specialize (Hall l Hl).
  exists (longitude l), (latitude l). split; [ reflexivity | ].
  now apply isValidEthiopianCoordinates_box.
Qed.

(** X19. [GET /ethiopian-locations] answers with predefined locations
    only, whatever the search, and each of them lies within the bounding box
    that the routing endpoints enforce, so that any 2 to 25 of them make an
    acceptable list of waypoints; and a search for the name or the type of a
    location, in any letter case, finds that location. *)
Theorem listed_locations_are_routable (search : option string) :
  (forall l, In l (ethiopian_locations search) ->
             In l locations /\ within_ethiopia (waypoint_of l))
  /\ (forall ls, incl ls (ethiopian_locations search) ->
                 (2 <= List.length ls <= 25)%nat ->
                 acceptable (map waypoint_of ls))
  /\ (forall l s, search = Some s -> In l locations ->
                  toLowerCase s = toLowerCase (loc_name l)
                  \/ toLowerCase s = toLowerCase (loc_type l) ->
                  In l (ethiopian_locations search)).
Proof.
  assert (Hsub : forall l, In l (ethiopian_locations search) ->
                           In l locations).
  { intros l. unfold ethiopian_locations.
    destruct search as [ [ | c s ] | ]; auto.
    intros H. now apply filter_In in H. }
  split; [ | split ].
  - intros l Hl. split; [ now apply Hsub | ].
    apply locations_within_ethiopia. now apply Hsub.
  - intros ls Hincl Hlen. split; [ now rewrite length_map | ].
    apply Forall_forall. intros wp Hwp.
    apply in_map_iff in Hwp. destruct Hwp as (l & <- & Hl).
    apply locations_within_ethiopia. apply Hsub. now apply Hincl.
  - intros l s -> Hl Hs. unfold ethiopian_locations.
    destruct s as [ | c s ]; [ exact Hl | ].
    apply filter_In. split; [ exact Hl | ].
    apply orb_true_iff.
    destruct Hs as [ -> | -> ]; [ left | right ]; apply includes_refl.
Qed.

Lemma listed_locations_are_routable_witness :
  exists l,
    loc_name l = "Meskel Square"
    /\ In l (ethiopian_locations (Some "LANDMARK"))
    /\ within_ethiopia (waypoint_of l).
Proof.
  destruct (listed_locations_are_routable (Some "LANDMARK"))
    as (Hbox & _ & Hfound).
  exists (nth 12 locations (nth 0 locations
                                {| loc_name := ""; latitude := 0;
                                   longitude := 0; loc_type := "" |})).
  assert (Hin : In (nth 12 locations
                        (nth 0 locations
                             {| loc_name := ""; latitude := 0;
                                longitude := 0; loc_type := "" |}))
                   (ethiopian_locations (Some "LANDMARK"))).
  { apply (Hfound _ "LANDMARK" eq_refl).
    - apply nth_In. simpl. lia.
    - right. reflexivity. }
  split; [ reflexivity | ]. split; [ exact Hin | ].
  now apply Hbox.
Defined.

(** ** Reading lobbies *)

Lemma update_user_rating_ids (st : DB) (a : js_number) (user : uuid) :
  map user_id (users (update_user_rating st a user)) = map user_id (users st).
Proof.
  unfold update_user_rating. simpl. rewrite map_map. apply map_ext.
  intros u. now destruct (user_id u =? user)%string.
Qed.

(** No request adds or removes a user, or changes the id of one. *)
Lemma serve_user_ids (geocodeAddress : string -> option (option (Q * Q)))
      (isISO8601 : string -> bool) (st : DB) (r : request) :
  map user_id (users (serve geocodeAddress isISO8601 st r))
  = map user_id (users st).
Proof.
  destruct r; simpl.
  - unfold post_lobby, create_lobby. split_cases.
  - unfold post_join, join_lobby. split_cases.
  - unfold post_leave, leave_lobby. split_cases.
  - unfold put_status, update_status. split_cases.
  - reflexivity.
  - unfold post_rate, rate_participant. split_cases.
    apply update_user_rating_ids.
  - unfold post_message, send_message_rest. split_cases.
  - unfold send_message. split_cases.
  - unfold lobby_status_update. split_cases.
Qed.

Lemma run_user_ids (geocodeAddress : string -> option (option (Q * Q)))
      (isISO8601 : string -> bool) (rs : list request) (st : DB) :
  map user_id (users (run geocodeAddress isISO8601 st rs))
  = map user_id (users st).
Proof.
  unfold run. revert st. induction rs as [ | r rs IH ]; intros st; simpl;
    [ reflexivity | ].
  now rewrite IH, serve_user_ids.
Qed.

Lemma user_pk_one (us : list user_row) (id : uuid) :
  NoDup (map user_id us) ->
  (List.length (filter (fun u => user_id u =? id)%string us) <= 1)%nat.
Proof.
  induction us as [ | u us IH ]; simpl; intros Hnd; [ lia | ].
  inversion Hnd as [ | x xs Hnotin Hnd' ]; subst.
  destruct (user_id u =? id)%string eqn:Hid; [ | now apply IH ].
  apply String.eqb_eq in Hid. rewrite filter_none_nil; [ simpl; lia | ].
  intros v Hv. apply String.eqb_neq. intros Heq. apply Hnotin.
  rewrite Hid, <- Heq. now apply in_map.
Qed.

Lemma members_with_user_length (st : DB) (id : uuid) :
  user_pk st ->
  Z.of_nat (List.length (members_with_user st id))
  <= count_members st id "active".
Proof.
  intros Hpk. unfold members_with_user, count_members.
  apply Nat2Z.inj_le.
  induction (members_with_status st id "active") as [ | m ms IH ]; simpl;
    [ lia | ].
  rewrite length_app, length_map.
  pose proof (user_pk_one (users st) (member_user_id m) Hpk). lia.
Qed.

Lemma members_with_user_In (st : DB) (id : uuid) (m : member_row)
      (u : user_row) :
  In (m, u) (members_with_user st id) ->
  In m (lobby_members st) /\ member_lobby_id m = id
  /\ member_status m = "active" /\ In u (users st)
  /\ user_id u = member_user_id m.
Proof.
  unfold members_with_user, members_with_status. intros H.
  apply in_flat_map in H. destruct H as (m0 & Hm0 & Hin).
  apply in_map_iff in Hin. destruct Hin as (u0 & Heq & Hu0).
  injection Heq as -> ->.
  apply filter_In in Hm0. destruct Hm0 as [ Hm Hc ].
  apply filter_In in Hu0. destruct Hu0 as [ Hu Hid ].
  apply andb_true_iff in Hc. destruct Hc as [ Hl Hs ].
  apply String.eqb_eq in Hl, Hs, Hid. auto.
Qed.

Lemma lobbies_with_creator_In (st : DB) (id : uuid) (l : lobby_row)
      (u : user_row) :
  In (l, u) (lobbies_with_creator st id) ->
  In l (lobbies st) /\ lobby_id l = id /\ In u (users st)
  /\ user_id u = creator_id l.
Proof.
  unfold lobbies_with_creator. intros H.
  apply in_flat_map in H. destruct H as (l0 & Hl0 & Hin).
  destruct (lobby_id l0 =? id)%string eqn:Hid; [ | destruct Hin ].
  apply in_map_iff in Hin. destruct Hin as (u0 & Heq & Hu0).
  injection Heq as -> ->.
  apply filter_In in Hu0. destruct Hu0 as [ Hu Hc ].
  apply String.eqb_eq in Hid, Hc. auto.
Qed.

(** X20. After any sequence of requests to a sound database with distinct
    user ids, the two views of a lobby stay within its seats: [GET /:id]
    shows the lobby of that id with a creator of the [users] table, and no
    more members than seats, each an active member of that lobby with their
    own user row; [GET /user/my-lobbies] lists the lobbies the user created,
    each with a member count between 0 and its seats. *)
Theorem lobby_views_within_capacity
        (geocodeAddress : string -> option (option (Q * Q)))
        (isISO8601 : string -> bool) (st : DB) (rs : list request)
        (user id : uuid) :
  db_ok st -> user_pk st ->
  let st' := run geocodeAddress isISO8601 st rs in
  (forall answer lobby creator members,
      get_lobby_route st' id = (answer, Some (lobby, creator, members)) ->
      lobby_id lobby = id /\ user_id creator = creator_id lobby
      /\ Z.of_nat (List.length members) <= available_seats lobby
      /\ forall m u, In (m, u) members ->
                     member_lobby_id m = id /\ member_status m = "active"
                     /\ user_id u = member_user_id m)
  /\ (forall lobby member_count,
         In (lobby, member_count) (my_lobbies st' user) ->
         creator_id lobby = user
         /\ 0 <= member_count <= available_seats lobby).
Proof.
  intros Hok Hpk st'.
  assert (Hok' : db_ok st') by now apply run_ok.
  assert (Hpk' : user_pk st')
    by (unfold user_pk, st'; now rewrite run_user_ids).
  destruct Hok' as (_ & _ & Hcap).
  split.
  - intros answer lobby creator members. unfold get_lobby_route, get_lobby.
    destruct (uuidValidation _); [ | discriminate ].
    destruct (lobbies_with_creator st' id) as [ | [ l c ] rest ] eqn:Hl;
      [ discriminate | ].
    intros H. injection H as _ -> -> <-.
    assert (Hin : In (lobby, creator) (lobbies_with_creator st' id))
      by (rewrite Hl; now left).
    apply lobbies_with_creator_In in Hin.
    destruct Hin as (Hlobby & Hid & _ & Hcreator).
    split; [ exact Hid | ]. split; [ exact Hcreator | ]. split.
    + pose proof (members_with_user_length st' id Hpk') as Hlen.
      specialize (Hcap lobby Hlobby). rewrite Hid in Hcap. lia.
    + intros m u Hmu. apply members_with_user_In in Hmu. tauto.
  - intros lobby member_count Hin. unfold my_lobbies in Hin.
    apply in_rev in Hin. apply in_map_iff in Hin.
    destruct Hin as (l & Heq & Hl). injection Heq as -> <-.
    apply filter_In in Hl. destruct Hl as [ Hl Hc ].
    apply String.eqb_eq in Hc. split; [ exact Hc | ].
    split; [ unfold count_members; lia | now apply Hcap ].
Qed.

Lemma lobby_views_within_capacity_witness :
  let st' := run geocode_found any_time db_users
                 [CreateLobby alice lobby1 (bole_piassa 2);
                  JoinLobby bob lobby1 None; JoinLobby carol lobby1 None] in
  (exists lobby creator members,
      get_lobby_route st' lobby1
      = (json 200 true "", Some (lobby, creator, members))
      /\ map (fun mu => user_id (snd mu)) members = [alice; bob]
      /\ Z.of_nat (List.length members) <= available_seats lobby)
  /\ forall lobby member_count,
       In (lobby, member_count) (my_lobbies st' alice) ->
       0 <= member_count <= available_seats lobby.
Proof.
  intros st'.
  assert (Hok : db_ok db_users).
  { split; [ constructor | split ]; [ intros m [] | intros l [] ]. }
  assert (Hpk : user_pk db_users).
  { unfold user_pk. simpl.
    repeat (constructor; [ simpl; intuition discriminate | ]).
    constructor. }
  destruct (lobby_views_within_capacity
              geocode_found any_time db_users
              [CreateLobby alice lobby1 (bole_piassa 2);
               JoinLobby bob lobby1 None; JoinLobby carol lobby1 None]
              alice lobby1 Hok Hpk) as [ Hview Hmine ].
  fold st' in Hview, Hmine. split.
  - assert (Hget : exists answer lobby creator members,
               get_lobby_route st' lobby1
               = (answer, Some (lobby, creator, members))
               /\ answer = json 200 true ""
               /\ map (fun mu => user_id (snd mu)) members = [alice; bob]).
    { do 4 eexists. split; [ vm_compute; reflexivity | ].
      split; reflexivity. }
    destruct Hget as (answer & l & c & ms & Hget & -> & Hms).
    exists l, c, ms. split; [ exact Hget | ]. split; [ exact Hms | ].
    now apply (Hview _ l c ms Hget).
  - intros lobby member_count Hin. now apply (Hmine lobby member_count).
Defined.

(** ** Reading rides *)

Lemma rides_with_driver_In (st : DB) (id : uuid) (r : ride_row)
      (u : user_row) :
  In (r, u) (rides_with_driver st id)
  <-> In r (rides st) /\ ride_id r = id /\ In u (users st)
      /\ user_id u = driver_id r.
Proof.
  unfold rides_with_driver. rewrite in_flat_map. split.
  - intros (r0 & Hr0 & Hin).
    destruct (ride_id r0 =? id)%string eqn:Hid; [ | destruct Hin ].
    apply in_map_iff in Hin. destruct Hin as (u0 & Heq & Hu0).
    injection Heq as -> ->.
    apply filter_In in Hu0. destruct Hu0 as [ Hu Hd ].
    apply String.eqb_eq in Hid, Hd. auto.
  - intros (Hr & Hid & Hu & Hd). exists r. split; [ exact Hr | ].
    apply String.eqb_eq in Hid. rewrite Hid.
    apply in_map. apply filter_In. split; [ exact Hu | ].
    now apply String.eqb_eq.
Qed.

Lemma participants_with_user_In (st : DB) (id : uuid) (v : participant_view) :
  In v (participants_with_user st id)
  <-> exists p u,
        v = participant_view_of p u
        /\ In p (ride_participants st) /\ part_ride_id p = id
        /\ In u (users st) /\ user_id u = part_user_id p.
Proof.
  unfold participants_with_user. rewrite in_flat_map. split.
  - intros (p & Hp & Hin).
    destruct (part_ride_id p =? id)%string eqn:Hid; [ | destruct Hin ].
    apply in_map_iff in Hin. destruct Hin as (u & Heq & Hu).
    apply filter_In in Hu. destruct Hu as [ Hu Hd ].
    apply String.eqb_eq in Hid, Hd. exists p, u. auto.
  - intros (p & u & -> & Hp & Hid & Hu & Hd). exists p.
    split; [ exact Hp | ].
    apply String.eqb_eq in Hid. rewrite Hid.
    apply in_map. apply filter_In. split; [ exact Hu | ].
    now apply String.eqb_eq.
Qed.

Lemma participant_rows_In (st : DB) (id user : uuid) (p : participant_row) :
  In p (participant_rows st id user)
  <-> In p (ride_participants st) /\ part_ride_id p = id
      /\ part_user_id p = user.
Proof.
  unfold participant_rows. rewrite filter_In, andb_true_iff.
  now rewrite !String.eqb_eq.
Qed.

Lemma rate_participant_rater (st : DB) (user id : uuid) (b : rate_body) :
  success (snd (rate_participant st user id b)) = true ->
  participant_rows st id user <> [].
Proof.
  unfold rate_participant.
  destruct (participantUserId b) as [ ratee | ]; [ | discriminate ].
  destruct (body_rating b) as [ r | ]; [ | discriminate ].
  destruct (_ || _); [ discriminate | ].
  destruct (_ || _); [ discriminate | ].
  destruct (participant_rows st id user); [ discriminate | ].
  discriminate.
Qed.

(** The rows after a rating: the ratee's rows of that ride carry the rating
    and the review, the others are as they were, and no row changes its ride
    or its user. *)
Lemma update_rating_rows (st : DB) (r : Z) (rev : option string)
      (id ratee : uuid) (p : participant_row) :
  In p (ride_participants (update_rating st r rev id ratee)) ->
  (part_ride_id p = id /\ part_user_id p = ratee
   /\ rating p = Some r /\ review p = rev)
  \/ ((part_ride_id p <> id \/ part_user_id p <> ratee)
      /\ In p (ride_participants st)).
Proof.
  unfold update_rating. simpl. rewrite in_map_iff.
  intros (p0 & Heq & Hp0).
  destruct ((part_ride_id p0 =? id)%string
            && (part_user_id p0 =? ratee)%string) eqn:Hm; subst p; simpl.
  - apply andb_true_iff in Hm. destruct Hm as [ Hi Hu ].
    apply String.eqb_eq in Hi, Hu. left. auto.
  - apply andb_false_iff in Hm. rewrite !String.eqb_neq in Hm. right. auto.
Qed.

Lemma update_rating_image (st : DB) (r : Z) (rev : option string)
      (id ratee : uuid) (p0 : participant_row) :
  In p0 (ride_participants st) ->
  exists p,
    In p (ride_participants (update_rating st r rev id ratee))
    /\ part_ride_id p = part_ride_id p0 /\ part_user_id p = part_user_id p0.
Proof.
  intros Hp0. unfold update_rating. simpl.
  eexists. split; [ apply in_map; exact Hp0 | ].
  now destruct (_ && _).
Qed.

Lemma update_user_rating_image (st : DB) (a : js_number) (user : uuid)
      (u0 : user_row) :
  In u0 (users st) ->
  exists u,
    In u (users (update_user_rating st a user)) /\ user_id u = user_id u0.
Proof.
  intros Hu0. unfold update_user_rating. simpl.
  eexists. split; [ apply in_map; exact Hu0 | ].
  now destruct (_ =? _)%string.
Qed.

(** X21. The details of a ride do not show the ratings given for it: each
    participant is listed with the rating of the user's row, which takes
    the place of the rating of the ride. After an accepted rating, when the
    ride is on record with its driver, [GET /:id] answers the rater with
    the ride; every row it lists for the ratee carries the review of the
    request, and as its rating the ratee's new average, the mean of all
    their ratings to two decimals; and the ratee is listed if they have a
    user row. *)
Theorem ride_details_show_the_average (st : DB) (rater id : uuid)
        (b : rate_body) :
  success (snd (post_rate st rater id b)) = true ->
  rides_with_driver st id <> [] ->
  let st' := fst (post_rate st rater id b) in
  exists ratee r ride participants,
    participantUserId b = Some ratee /\ body_rating b = Some r
    /\ get_ride_route st' rater id
       = (json 200 true "", Some (ride, participants))
    /\ In (fst ride) (rides st) /\ ride_id (fst ride) = id
    /\ (forall v, In v participants -> view_user_id v = ratee ->
                  view_review v = body_review b
                  /\ view_rating v
                     = Num (round2 (mean (ratings_of ratee
                                            (ride_participants st')))))
    /\ (In ratee (map user_id (users st)) ->
        exists v, In v participants /\ view_user_id v = ratee).
Proof.
  unfold post_rate, get_ride_route.
  destruct (uuidValidation [("id", id)]); [ | discriminate ].
  intros Hs Hride. simpl.
  pose proof (rate_participant_rater st rater id b Hs) as Hrater.
  destruct (rate_participant_success st rater id b Hs)
    as (ratee & r & Hb1 & Hb2 & Hrow & ->).
  destruct (rated_user_mean st r (body_review b) id ratee Hrow)
    as (_ & Husers & _).
  set (st1 := update_rating st r (body_review b) id ratee) in *.
  set (st2 := update_user_rating st1 (avg_rating st1 ratee) ratee) in *.
  exists ratee, r.
  (* the ride is still on record *)
  destruct (rides_with_driver st id) as [ | [ r0 d0 ] rest ] eqn:Hr0;
    [ easy | ].
  assert (Hin0 : In (r0, d0) (rides_with_driver st id))
    by (rewrite Hr0; now left).
  apply rides_with_driver_In in Hin0.
  destruct Hin0 as (Hr0in & Hr0id & Hd0 & Hd0id).
  destruct (update_user_rating_image st1 (avg_rating st1 ratee) ratee d0 Hd0)
    as (d1 & Hd1 & Hd1id).
  assert (Hin1 : In (r0, d1) (rides_with_driver st2 id)).
  { apply rides_with_driver_In. repeat split; auto. congruence. }
  unfold get_ride.
  destruct (rides_with_driver st2 id) as [ | ride rest2 ] eqn:Hr2;
    [ destruct Hin1 | ].
  (* the rater is still a participant *)
  destruct (participant_rows st id rater) as [ | p0 ps0 ] eqn:Hp0; [ easy | ].
  assert (Hp0in : In p0 (participant_rows st id rater))
    by (rewrite Hp0; now left).
  apply participant_rows_In in Hp0in. destruct Hp0in as (Hp0in & Hp0i & Hp0u).
  destruct (update_rating_image st r (body_review b) id ratee p0 Hp0in)
    as (p1 & Hp1 & Hp1i & Hp1u).
  assert (Hp1in : In p1 (participant_rows st2 id rater)).
  { apply participant_rows_In. repeat split; [ exact Hp1 | | ]; congruence. }
  destruct (participant_rows st2 id rater) as [ | p2 ps2 ]; [ destruct Hp1in | ].
  exists ride, (participants_with_user st2 id).
  split; [ exact Hb1 | ]. split; [ exact Hb2 | ].
  split; [ reflexivity | ].
  assert (Hride2 : In ride (rides_with_driver st2 id))
    by (rewrite Hr2; now left).
  destruct ride as [ r2 d2 ]. apply rides_with_driver_In in Hride2.
  destruct Hride2 as (Hr2in & Hr2id & _).
  split; [ exact Hr2in | ]. split; [ exact Hr2id | ]. split.
  - intros v Hv Hratee.
    apply participants_with_user_In in Hv.
    destruct Hv as (p & u & -> & Hpin & Hpid & Hu & Huid).
    simpl in Hratee. simpl.
    destruct (update_rating_rows st r (body_review b) id ratee p Hpin)
      as [ (_ & _ & _ & Hrev) | ([ Hne | Hne ] & _) ];
      [ | contradiction | contradiction ].
    split; [ exact Hrev | ].
    rewrite Husers in Hu.
    destruct (users_with_rating_In _ _ _ _ Hu) as [ [ _ Hr ] | [ Hno _ ] ];
      [ exact Hr | congruence ].
  - intros Hratee. apply in_map_iff in Hratee.
    destruct Hratee as (u0 & Hu0id & Hu0).
    destruct (update_user_rating_image st1 (avg_rating st1 ratee) ratee u0 Hu0)
      as (u1 & Hu1 & Hu1id).
    destruct (participant_rows st id ratee) as [ | q0 qs0 ] eqn:Hq0;
      [ easy | ].
    assert (Hq0in : In q0 (participant_rows st id ratee))
      by (rewrite Hq0; now left).
    apply participant_rows_In in Hq0in.
    destruct Hq0in as (Hq0in & Hq0i & Hq0u).
    destruct (update_rating_image st r (body_review b) id ratee q0 Hq0in)
      as (q1 & Hq1 & Hq1i & Hq1u).
    exists (participant_view_of q1 u1). split; [ | simpl; congruence ].
    apply participants_with_user_In. exists q1, u1.
    repeat split; auto; congruence.
Qed.

Lemma ride_details_show_the_average_witness :
  let st' := fst (post_rate db_rides bob ride1 bob_rates_alice) in
  body_rating bob_rates_alice = Some 4
  /\ exists ride participants,
       get_ride_route st' bob ride1
       = (json 200 true "", Some (ride, participants))
       /\ (exists v, In v participants /\ view_user_id v = alice)
       /\ forall v, In v participants -> view_user_id v = alice ->
                    view_rating v = Num (450 # 100)%Q.
Proof.
  intros st'. split; [ reflexivity | ].
  assert (Hride : rides_with_driver db_rides ride1 <> []) by discriminate.
  destruct (ride_details_show_the_average db_rides bob ride1 bob_rates_alice
              eq_refl Hride)
    as (ratee & r & ride & ps & Hb1 & Hb2 & Hget & _ & _ & Hshown & Hlisted).
  injection Hb1 as <-. injection Hb2 as <-.
  exists ride, ps. split; [ exact Hget | ]. split.
  - apply Hlisted. now left.
  - intros v Hv Hratee. now destruct (Hshown v Hv Hratee) as [ _ -> ].
Defined.
